(** * LibCST matchers: a shallow embedding of [libcst/matchers/_matcher_base.py]

    The matcher engine of LibCST decides whether a node of a concrete syntax
    tree has the shape described by a matcher, and which sub-values the
    [SaveMatchedNode] wrappers of the matcher capture.  This file embeds the
    matcher classes, their constructors and the five
    matching functions, and states the properties of the engine as theorems
    about that embedding.

    Python features are embedded as follows.
    - A Python object that can be a field value is a [value]; a matcher
      object is a [matcher].
    - A function that returns [Optional[Dict[str, ...]]] returns
      [outcome (option captures)]: [Ok (Some d)] is a dictionary, [Ok None]
      is Python's [None], [Raise e] is a raised exception.
    - Dictionaries of captures are [gmap string value].
    - [_sequence_matches] re-inserts quantifiers with a decremented count,
      so [_sequence_matches], [_attribute_matches], [_node_matches] and
      [_matches] are defined by recursion on a fuel argument and on the
      remaining values; [Timeout] is the outcome of an exhausted fuel.  The
      definitions with the source's names supply the fuel, and the
      termination section proves that it is always enough and that these
      definitions satisfy the recursive equations of the source. *)

From stdpp Require Import base option list strings gmap.
From Stdlib Require Import Ascii String Lia.

Set Warnings "-register-all".
Open Scope string_scope.

(** ** Values: the Python objects that matchers are compared with *)

(** Both [list] and [tuple] are [collections.abc.Sequence]s; only their
    class names differ. *)
Inductive seqkind := PyList | PyTuple.

Inductive value :=
| VNone                                   (* None *)
| VStr (s : string)                       (* str *)
| VBool (b : bool)                        (* bool *)
| VMaybe                                  (* MaybeSentinel.DEFAULT *)
| VRemoval                                (* RemovalSentinel.REMOVE *)
| VNode (cls : string) (oid : nat) (attrs : list (string * value))
                                          (* a CSTNode: class name, identity, fields *)
| VSeq (k : seqkind) (items : list value) (* list or tuple *).

(** Capture dictionaries, [Dict[str, Union[CSTNode, Sequence[CSTNode]]]]. *)
Abbreviation captures := (gmap string value).

(** [{**a, **b}]: the entries of [b] override those of [a]. *)
Definition dict_merge (a b : captures) : captures := b ∪ a.

(** [{**a, name: v}]. *)
Definition dict_set (a : captures) (name : string) (v : value) : captures :=
  <[name := v]> a.

(** ** Metadata *)

(** A metadata provider is identified by its class; metadata values are
    compared with [==]. *)
Definition provider := string.

Inductive metadata_value :=
| MetaStr (s : string)
| MetaInt (z : Z)
| MetaEnum (cls member : string).

#[global] Instance metadata_value_eq_dec : EqDecision metadata_value.
Proof. solve_decision. Defined.

(** A metadata lookup returns [None] for [_METADATA_MISSING_SENTINEL]. *)
Definition metadata_lookup_t := provider -> value -> option metadata_value.

(** ** Matchers *)

Inductive matcher :=
| DoNotCare                                          (* DoNotCareSentinel.DEFAULT *)
| MNone                                              (* None used as a matcher *)
| MStr (s : string)                                  (* a str used as a matcher *)
| MBool (b : bool)                                   (* a bool used as a matcher *)
| MSeq (k : seqkind) (items : list matcher)          (* a list or tuple of matchers *)
| Concrete (cls : string) (flds : list (string * matcher))
                                                     (* a generated dataclass matcher *)
| OneOf (options : list matcher)
| AllOf (options : list matcher)
| InverseOf (m : matcher)                            (* _InverseOf *)
| ExtractMatchingNode (m : matcher) (name : string)  (* _ExtractMatchingNode *)
| MatchIfTrue (func : value -> bool)
| MatchMetadata (key : provider) (v : metadata_value)
| MatchMetadataIfTrue (key : provider) (func : metadata_value -> bool)
| AtLeastN (m : matcher) (n : nat)
| AtMostN (m : matcher) (n : nat).

(** ** Outcomes of Python calls *)

Inductive exn :=
| AttributeError
| TypeError
| Exception (msg : string).

Inductive outcome (A : Type) :=
| Ok (a : A)
| Raise (e : exn)
| Timeout.
Arguments Ok {A} a.
Arguments Raise {A} e.
Arguments Timeout {A}.

(** Sequencing of calls: an exception of the first call propagates. *)
Definition bind {A B} (k : A -> outcome B) (r : outcome A) : outcome B :=
  match r with
  | Ok a => k a
  | Raise e => Raise e
  | Timeout => Timeout
  end.

#[global] Instance outcome_bind : MBind outcome := @bind.

Abbreviation match_result := (outcome (option captures)).

(** [{} if b else None] *)
Definition empty_if (b : bool) : match_result :=
  Ok (if b then Some ∅ else None).

(** ** Python primitives used by the engine *)

(** [obj.__class__.__name__] for a value. *)
Definition class_name (v : value) : string :=
  match v with
  | VNone => "NoneType"
  | VStr _ => "str"
  | VBool _ => "bool"
  | VMaybe => "MaybeSentinel"
  | VRemoval => "RemovalSentinel"
  | VNode cls _ _ => cls
  | VSeq PyList _ => "list"
  | VSeq PyTuple _ => "tuple"
  end.

(** [obj.__class__.__name__] for a matcher object. *)
Definition matcher_class_name (m : matcher) : string :=
  match m with
  | DoNotCare => "DoNotCareSentinel"
  | MNone => "NoneType"
  | MStr _ => "str"
  | MBool _ => "bool"
  | MSeq PyList _ => "list"
  | MSeq PyTuple _ => "tuple"
  | Concrete cls _ => cls
  | OneOf _ => "OneOf"
  | AllOf _ => "AllOf"
  | InverseOf _ => "_InverseOf"
  | ExtractMatchingNode _ _ => "_ExtractMatchingNode"
  | MatchIfTrue _ => "MatchIfTrue"
  | MatchMetadata _ _ => "MatchMetadata"
  | MatchMetadataIfTrue _ _ => "MatchMetadataIfTrue"
  | AtLeastN _ _ => "AtLeastN"
  | AtMostN _ _ => "AtMostN"
  end.

(** The items of a [str] seen as a sequence: its one-character strings. *)
Fixpoint str_items (s : string) : list string :=
  match s with
  | EmptyString => []
  | String c s' => String c EmptyString :: str_items s'
  end.

(** A slice of a [str] is a [str]: the items are joined again. *)
Fixpoint str_join (items : list value) : string :=
  match items with
  | [] => EmptyString
  | VStr s :: items' => s ++ str_join items'
  | _ :: items' => str_join items'
  end.

(** [isinstance(node, collections.abc.Sequence)]: lists, tuples and strings.
    The result gives the items and how a slice of them is an object again. *)
Definition value_as_sequence (v : value) : option ((list value -> value) * list value) :=
  match v with
  | VSeq k items => Some (VSeq k, items)
  | VStr s => Some (fun items => VStr (str_join items), map VStr (str_items s))
  | _ => None
  end.

(** [isinstance(m, collections.abc.Sequence)] for a matcher object. *)
Definition matcher_as_sequence (m : matcher) : option (list matcher) :=
  match m with
  | MSeq _ items => Some items
  | MStr s => Some (map MStr (str_items s))
  | _ => None
  end.

(** [node is None] *)
Definition is_VNone (v : value) : bool :=
  match v with VNone => true | _ => false end.

(** [node == matcher] for a string matcher. *)
Definition value_eq_str (v : value) (s : string) : bool :=
  match v with VStr s' => String.eqb s' s | _ => false end.

(** [node is matcher] for a boolean matcher. *)
Definition value_is_bool (v : value) (b : bool) : bool :=
  match v with VBool b' => Bool.eqb b' b | _ => false end.

(** [getattr(node, name)] on the fields of a node. *)
Fixpoint getattr (attrs : list (string * value)) (name : string) : outcome value :=
  match attrs with
  | [] => Raise AttributeError
  | (n, v) :: attrs' => if String.eqb n name then Ok v else getattr attrs' name
  end.

(** [(isinstance(m, AtLeastN) and m.n == 0) or isinstance(m, AtMostN)] *)
Definition matches_no_node (m : matcher) : bool :=
  match m with
  | AtLeastN _ 0 => true
  | AtMostN _ _ => true
  | _ => false
  end.

(** [{} if r is None else None] *)
Definition invert_result (r : option captures) : match_result :=
  match r with
  | None => Ok (Some ∅)
  | Some _ => Ok None
  end.

(** [{**r, name: node}] when [r] is not [None]. *)
Definition capture_result (r : option captures) (name : string) (node : value)
  : match_result :=
  match r with
  | Some c => Ok (Some (dict_set c name node))
  | None => Ok None
  end.

(** ** The loops of the engine *)

(** [for m in options: c = f(m); if c is not None: return c] and then
    [return None]. *)
Fixpoint first_match (f : matcher -> match_result) (options : list matcher)
  : match_result :=
  match options with
  | [] => Ok None
  | m :: options' =>
      c ← f m;
      match c with
      | Some c => Ok (Some c)
      | None => first_match f options'
      end
  end.

(** [for m in options: c = f(m); if c is None: return None;
    all_captures = {**all_captures, **c}] and then [return all_captures]. *)
Fixpoint all_match (f : matcher -> match_result) (options : list matcher)
    (all_captures : captures) : match_result :=
  match options with
  | [] => Ok (Some all_captures)
  | m :: options' =>
      c ← f m;
      match c with
      | None => Ok None
      | Some c => all_match f options' (dict_merge all_captures c)
      end
  end.

(** The loop of [_attribute_matches] over the options of a [OneOf] when the
    value is a sequence.  A [MatchIfTrue] option evaluates [matcher.func],
    where [matcher] is the [OneOf] itself, which has no attribute [func]. *)
Fixpoint attribute_oneof_loop (seqf : list matcher -> match_result)
    (options : list matcher) : match_result :=
  match options with
  | [] => Ok None
  | m :: options' =>
      match matcher_as_sequence m with
      | Some ms =>
          sequence_capture ← seqf ms;
          match sequence_capture with
          | Some c => Ok (Some c)
          | None => attribute_oneof_loop seqf options'
          end
      | None =>
          match m with
          | MatchIfTrue _ => Raise AttributeError
          | _ => attribute_oneof_loop seqf options'
          end
      end
  end.

(** The loop of [_attribute_matches] over the options of an [AllOf] when the
    value is a sequence. *)
Fixpoint attribute_allof_loop (seqf : list matcher -> match_result)
    (options : list matcher) (all_captures : captures) : match_result :=
  match options with
  | [] => Ok (Some all_captures)
  | m :: options' =>
      match matcher_as_sequence m with
      | Some ms =>
          sequence_capture ← seqf ms;
          match sequence_capture with
          | None => Ok None
          | Some c => attribute_allof_loop seqf options' (dict_merge all_captures c)
          end
      | None =>
          match m with
          | MatchIfTrue _ => Raise AttributeError
          | _ => Ok None
          end
      end
  end.

(** The loop of [_node_matches] over [fields(matcher)]. *)
Fixpoint node_fields_loop (metaf : matcher -> match_result)
    (attrf : value -> matcher -> match_result)
    (attrs : list (string * value)) (flds : list (string * matcher))
    (all_captures : captures) : match_result :=
  match flds with
  | [] => Ok (Some all_captures)
  | (name, desired) :: flds' =>
      if String.eqb name "_metadata" then
        node_fields_loop metaf attrf attrs flds' all_captures
      else if String.eqb name "metadata" then
        match desired with
        | DoNotCare => node_fields_loop metaf attrf attrs flds' all_captures
        | _ =>
            metadata_capture ← metaf desired;
            match metadata_capture with
            | None => Ok None
            | Some c =>
                node_fields_loop metaf attrf attrs flds' (dict_merge all_captures c)
            end
        end
      else
        actual ← getattr attrs name;
        attribute_capture ← attrf actual desired;
        match attribute_capture with
        | None => Ok None
        | Some c =>
            node_fields_loop metaf attrf attrs flds' (dict_merge all_captures c)
        end
  end.

(** The body of [_sequence_matches].  The calls that consume a value recurse
    on the remaining values; the calls that keep all the values ([seqf]) and
    the calls into [_attribute_matches] ([attrf]) and [_matches] ([matchf])
    are the recursive calls of the engine. *)
Fixpoint sequence_loop (attrf matchf : value -> matcher -> match_result)
    (seqf : list value -> list matcher -> match_result)
    (pack : list value -> value)
    (nodes : list value) (matchers : list matcher) {struct nodes} : match_result :=
  match nodes, matchers with
  | [], [] => Ok (Some ∅)
  | [], _ :: _ => empty_if (forallb matches_no_node matchers)
  | _ :: _, [] => Ok None
  | node :: rest, m :: ms =>
      (* match_capture = _matches(node, matcher, ...), reached by every
         matcher whose branch did not return *)
      let direct :=
        match_capture ← matchf node m;
        match match_capture with
        | Some mc =>
            sequence_capture ← sequence_loop attrf matchf seqf pack rest ms;
            match sequence_capture with
            | Some sc => Ok (Some (dict_merge mc sc))
            | None => Ok None
            end
        | None => Ok None
        end in
      (* consume the matcher but not the node *)
      let skip :=
        sequence_capture ← seqf nodes ms;
        match sequence_capture with
        | Some sc => Ok (Some sc)
        | None => direct
        end in
      (* consume the node with the inner matcher, continue with [next] *)
      let greedy (inner : matcher) (next : list matcher) : match_result :=
        attribute_capture ← attrf node inner;
        match attribute_capture with
        | Some ac =>
            sequence_capture ← sequence_loop attrf matchf seqf pack rest next;
            match sequence_capture with
            | Some sc => Ok (Some (dict_merge ac sc))
            | None => Ok None
            end
        | None => Ok None
        end in
      match m with
      | DoNotCare => sequence_loop attrf matchf seqf pack rest ms
      | AtMostN inner n =>
          match n with
          | S n' =>
              found ← greedy inner (AtMostN inner n' :: ms);
              match found with
              | Some c => Ok (Some c)
              | None => skip
              end
          | 0 => skip
          end
      | AtLeastN inner n =>
          match n with
          | S n' =>
              found ← greedy inner (AtLeastN inner n' :: ms);
              match found with
              | Some c => Ok (Some c)
              | None => direct
              end
          | 0 =>
              found ← greedy inner matchers;
              match found with
              | Some c => Ok (Some c)
              | None => skip
              end
          end
      | ExtractMatchingNode inner name =>
          sequence_capture ← seqf nodes (inner :: ms);
          match sequence_capture with
          | Some sc => Ok (Some (dict_merge {[ name := pack nodes ]} sc))
          | None => Ok None
          end
      | _ => direct
      end
  end.

(** ** The engine *)

(** [_metadata_matches] recurses on the structure of the metadata matcher. *)
Fixpoint _metadata_matches (node : value) (metadata : matcher)
    (metadata_lookup : metadata_lookup_t) {struct metadata} : match_result :=
  match metadata with
  | OneOf options =>
      first_match (fun m => _metadata_matches node m metadata_lookup) options
  | AllOf options =>
      all_match (fun m => _metadata_matches node m metadata_lookup) options ∅
  | InverseOf inner =>
      c ← _metadata_matches node inner metadata_lookup;
      invert_result c
  | ExtractMatchingNode inner name =>
      metadata_capture ← _metadata_matches node inner metadata_lookup;
      capture_result metadata_capture name node
  | MatchMetadataIfTrue key func =>
      match metadata_lookup key node with
      | None => Ok None
      | Some actual_value => empty_if (func actual_value)
      end
  | MatchMetadata key v =>
      match metadata_lookup key node with
      | None => Ok None
      | Some actual_value => empty_if (bool_decide (actual_value = v))
      end
  | _ => Raise (Exception "Logic error!")
  end.

(** [_sequence_matches], [_attribute_matches], [_node_matches] and [_matches]
    with an explicit bound on the depth of their calls. *)
Fixpoint sequence_matches_at (fuel : nat) (pack : list value -> value)
    (nodes : list value) (matchers : list matcher)
    (metadata_lookup : metadata_lookup_t) {struct fuel} : match_result :=
  match fuel with
  | 0 => Timeout
  | S fuel' =>
      sequence_loop
        (fun node m => attribute_matches_at fuel' node m metadata_lookup)
        (fun node m => matches_at fuel' node m metadata_lookup)
        (fun nodes' ms => sequence_matches_at fuel' pack nodes' ms metadata_lookup)
        pack nodes matchers
  end

with attribute_matches_at (fuel : nat) (node : value) (m : matcher)
    (metadata_lookup : metadata_lookup_t) {struct fuel} : match_result :=
  match fuel with
  | 0 => Timeout
  | S fuel' =>
      match m with
      | DoNotCare => Ok (Some ∅)
      | InverseOf inner =>
          c ← attribute_matches_at fuel' node inner metadata_lookup;
          invert_result c
      | ExtractMatchingNode inner name =>
          attribute_capture ← attribute_matches_at fuel' node inner metadata_lookup;
          capture_result attribute_capture name node
      | MatchIfTrue func => empty_if (func node)
      | MNone => empty_if (is_VNone node)
      | MStr s => empty_if (value_eq_str node s)
      | MBool b => empty_if (value_is_bool node b)
      | _ =>
          match value_as_sequence node with
          | Some (pack, items) =>
              let seqf ms := sequence_matches_at fuel' pack items ms metadata_lookup in
              match m with
              | OneOf options => attribute_oneof_loop seqf options
              | AllOf options => attribute_allof_loop seqf options ∅
              | MSeq _ ms => seqf ms
              | _ => Ok None
              end
          | None => matches_at fuel' node m metadata_lookup
          end
      end
  end

with node_matches_at (fuel : nat) (node : value) (m : matcher)
    (metadata_lookup : metadata_lookup_t) {struct fuel} : match_result :=
  match fuel with
  | 0 => Timeout
  | S fuel' =>
      match m with
      | InverseOf inner =>
          c ← node_matches_at fuel' node inner metadata_lookup;
          invert_result c
      | ExtractMatchingNode inner name =>
          node_capture ← node_matches_at fuel' node inner metadata_lookup;
          capture_result node_capture name node
      | MatchIfTrue func => empty_if (func node)
      | MatchMetadata _ _ | MatchMetadataIfTrue _ _ =>
          _metadata_matches node m metadata_lookup
      | _ =>
          if negb (String.eqb (class_name node) (matcher_class_name m)) then Ok None
          else
            match m with
            | Concrete _ flds =>
                (* [getattr(node, field.name)] reads the fields of the node *)
                node_fields_loop
                  (fun desired => _metadata_matches node desired metadata_lookup)
                  (fun actual desired =>
                     attribute_matches_at fuel' actual desired metadata_lookup)
                  (match node with VNode _ _ attrs => attrs | _ => [] end)
                  flds ∅
            | _ => Raise TypeError   (* fields() of an object that is no dataclass *)
            end
      end
  end

with matches_at (fuel : nat) (node : value) (m : matcher)
    (metadata_lookup : metadata_lookup_t) {struct fuel} : match_result :=
  match fuel with
  | 0 => Timeout
  | S fuel' =>
      match node with
      | VMaybe =>
          empty_if (match m with InverseOf _ => true | _ => false end)
      | _ =>
          match m with
          | OneOf options =>
              first_match (fun m' => node_matches_at fuel' node m' metadata_lookup) options
          | AllOf options =>
              all_match (fun m' => node_matches_at fuel' node m' metadata_lookup) options ∅
          | _ => node_matches_at fuel' node m metadata_lookup
          end
      end
  end.

(** ** The measure of the recursion *)

(** The size of a matcher counts its constructors and the counts of its
    quantifiers, so that [AtMostN m (n - 1)] is smaller than [AtMostN m n]. *)
Fixpoint msize (m : matcher) : nat :=
  match m with
  | MSeq _ items => 2 + list_sum (map msize items)
  | Concrete _ flds => 1 + list_sum (map (fun f => msize (snd f)) flds)
  | OneOf options | AllOf options => 1 + list_sum (map msize options)
  | InverseOf inner | ExtractMatchingNode inner _ => 1 + msize inner
  | AtLeastN inner n | AtMostN inner n => 1 + msize inner + n
  | _ => 1
  end.

(** The size of a matcher as an element of a sequence: the items of a [str]
    are strings again and cost nothing. *)
Definition esize (m : matcher) : nat :=
  match m with MStr _ => 0 | _ => msize m end.

Definition sequence_fuel (matchers : list matcher) : nat :=
  3 * list_sum (map esize matchers) + 3.

Definition attribute_fuel (m : matcher) : nat := 3 * msize m.
Definition matches_fuel (m : matcher) : nat := 3 * msize m - 1.
Definition node_fuel (m : matcher) : nat := 3 * msize m - 2.

(** The functions of the source: the engine with the fuel of the measure. *)
Definition _sequence_matches (pack : list value -> value) (nodes : list value)
    (matchers : list matcher) (metadata_lookup : metadata_lookup_t) : match_result :=
  sequence_matches_at (sequence_fuel matchers) pack nodes matchers metadata_lookup.

Definition _attribute_matches (node : value) (m : matcher)
    (metadata_lookup : metadata_lookup_t) : match_result :=
  attribute_matches_at (attribute_fuel m) node m metadata_lookup.

Definition _node_matches (node : value) (m : matcher)
    (metadata_lookup : metadata_lookup_t) : match_result :=
  node_matches_at (node_fuel m) node m metadata_lookup.

Definition _matches (node : value) (m : matcher)
    (metadata_lookup : metadata_lookup_t) : match_result :=
  matches_at (matches_fuel m) node m metadata_lookup.

(** ** Metadata resolvers and the public functions *)

(** [libcst.MetadataWrapper]: the wrapped module and, per provider, the
    resolved table from nodes to values. *)
Record MetadataWrapper := {
  module : value;
  resolve : provider -> value -> option metadata_value
}.

(** The [metadata_resolver] argument: a [MetadataWrapper] or another
    [MetadataDependent]. *)
Inductive resolver :=
| ResolverWrapper (wrapper : MetadataWrapper)
| ResolverDependent (get_metadata : provider -> value -> option metadata_value).

Definition _construct_metadata_fetcher_null : metadata_lookup_t :=
  fun _ _ => None.

Definition _construct_metadata_fetcher_dependent
    (get_metadata : provider -> value -> option metadata_value) : metadata_lookup_t :=
  fun provider node => get_metadata provider node.

(** The fetcher of a wrapper resolves a provider once and keeps the table;
    with a table that is a function of the provider, the cache is not
    observable. *)
Definition _construct_metadata_fetcher_wrapper (wrapper : MetadataWrapper)
  : metadata_lookup_t :=
  fun provider node => resolve wrapper provider node.

Definition fetcher_of (metadata_resolver : option resolver) : metadata_lookup_t :=
  match metadata_resolver with
  | None => _construct_metadata_fetcher_null
  | Some (ResolverWrapper w) => _construct_metadata_fetcher_wrapper w
  | Some (ResolverDependent d) => _construct_metadata_fetcher_dependent d
  end.

(** [isinstance(matcher, (AtLeastN, AtMostN, MatchIfTrue, _BaseMetadataMatcher))] *)
Definition forbidden_at_top_level (m : matcher) : bool :=
  match m with
  | AtLeastN _ _ | AtMostN _ _ | MatchIfTrue _
  | MatchMetadata _ _ | MatchMetadataIfTrue _ _ => true
  | _ => false
  end.

Definition extract (node : value) (m : matcher)
    (metadata_resolver : option resolver) : match_result :=
  match node with
  | VRemoval => Ok None
  | _ =>
      if forbidden_at_top_level m then Ok None
      else _matches node m (fetcher_of metadata_resolver)
  end.

Definition matches (node : value) (m : matcher)
    (metadata_resolver : option resolver) : outcome bool :=
  c ← extract node m metadata_resolver;
  Ok (match c with Some _ => true | None => false end).

(** Modelled from the spec: [CSTNode.visit] and [MetadataWrapper.visit] are
    not part of this file's source; the traversal contract is a visitor hook
    invoked once per node in pre-order, and a match never prunes the
    descendants ([on_visit] returns [True]).  [preorder] lists the nodes of a
    tree in that order. *)
Fixpoint preorder (v : value) : list value :=
  match v with
  | VNode _ _ attrs => v :: flat_map (fun a => preorder (snd a)) attrs
  | VSeq _ items => flat_map preorder items
  | _ => []
  end.

(** [_FindAllVisitor.on_visit] over the visited nodes: [found_nodes] and
    [extracted_nodes]. *)
Fixpoint on_visit_all (m : matcher) (metadata_lookup : metadata_lookup_t)
    (nodes : list value) : outcome (list value * list captures) :=
  match nodes with
  | [] => Ok ([], [])
  | node :: nodes' =>
      c ← _matches node m metadata_lookup;
      r ← on_visit_all m metadata_lookup nodes';
      Ok (match c with
          | Some c => (node :: fst r, c :: snd r)
          | None => r
          end)
  end.

(** The [tree] argument of [findall] and [extractall]. *)
Inductive tree_arg :=
| Tree (v : value)
| TreeWrapper (wrapper : MetadataWrapper).

Definition _find_or_extract_all (tree : tree_arg) (m : matcher)
    (metadata_resolver : option resolver) : outcome (list value * list captures) :=
  match tree with
  | Tree VRemoval | Tree VMaybe => Ok ([], [])
  | _ =>
      match m with
      | AtLeastN _ _ | AtMostN _ _ => Ok ([], [])
      | _ =>
          let metadata_resolver :=
            match tree, metadata_resolver with
            | TreeWrapper w, None => Some (ResolverWrapper w)
            | _, _ => metadata_resolver
            end in
          let fetcher := fetcher_of metadata_resolver in
          match tree with
          | Tree (VNode _ _ _ as root) => on_visit_all m fetcher (preorder root)
          | TreeWrapper w => on_visit_all m fetcher (preorder (module w))
          | Tree _ => Raise AttributeError   (* no [visit] method *)
          end
      end
  end.

Definition findall (tree : tree_arg) (m : matcher)
    (metadata_resolver : option resolver) : outcome (list value) :=
  r ← _find_or_extract_all tree m metadata_resolver;
  Ok (fst r).

Definition extractall (tree : tree_arg) (m : matcher)
    (metadata_resolver : option resolver) : outcome (list captures) :=
  r ← _find_or_extract_all tree m metadata_resolver;
  Ok (snd r).

(** ** Constructors of matchers *)

Definition combination_error : exn :=
  Exception "Cannot use AllOf and OneOf in combination!".

(** The loop of [OneOf.__init__] that normalizes the options. *)
Fixpoint OneOf_options (options : list matcher) : outcome (list matcher) :=
  match options with
  | [] => Ok []
  | AllOf _ :: _ => Raise combination_error
  | OneOf inner :: options' =>
      actual ← OneOf_options options';
      Ok (inner ++ actual)%list
  | opt :: options' =>
      actual ← OneOf_options options';
      Ok (opt :: actual)
  end.

(** [OneOf.__init__] *)
Definition OneOf_init (options : list matcher) : outcome matcher :=
  actual_options ← OneOf_options options;
  Ok (OneOf actual_options).

(** The loop of [AllOf.__init__] that normalizes the options. *)
Fixpoint AllOf_options (options : list matcher) : outcome (list matcher) :=
  match options with
  | [] => Ok []
  | OneOf _ :: _ => Raise combination_error
  | AllOf inner :: options' =>
      actual ← AllOf_options options';
      Ok (inner ++ actual)%list
  | opt :: options' =>
      actual ← AllOf_options options';
      Ok (opt :: actual)
  end.

(** [AllOf.__init__] *)
Definition AllOf_init (options : list matcher) : outcome matcher :=
  actual_options ← AllOf_options options;
  Ok (AllOf actual_options).

(** [[f(m) for m in options]]: the first exception ends the comprehension. *)
Fixpoint comprehension (f : matcher -> outcome matcher) (options : list matcher)
  : outcome (list matcher) :=
  match options with
  | [] => Ok []
  | m :: options' =>
      x ← f m;
      xs ← comprehension f options';
      Ok (x :: xs)
  end.

(** [DoesNotMatch(obj)], with the [__invert__] of each class. *)
Fixpoint DoesNotMatch (obj : matcher) : outcome matcher :=
  match obj with
  | OneOf options =>
      inverted ← comprehension DoesNotMatch options;
      AllOf_init inverted
  | AllOf options =>
      inverted ← comprehension DoesNotMatch options;
      OneOf_init inverted
  | MatchIfTrue func => Ok (MatchIfTrue (fun val => negb (func val)))
  | MatchMetadataIfTrue key func =>
      Ok (MatchMetadataIfTrue key (fun val => negb (func val)))
  | InverseOf inner => Ok inner
  | ExtractMatchingNode _ _ =>
      Raise (Exception
        "Cannot invert a SaveMatchedNode. Instead you should wrap SaveMatchedNode around your inversion itself")
  | _ => Ok (InverseOf obj)
  end.

(** [SaveMatchedNode(matcher, name)] *)
Definition SaveMatchedNode (m : matcher) (name : string) : matcher :=
  ExtractMatchingNode m name.

(** [ZeroOrMore(matcher)] and [ZeroOrOne(matcher)] *)
Definition ZeroOrMore (m : matcher) : matcher := AtLeastN m 0.
Definition ZeroOrOne (m : matcher) : matcher := AtMostN m 1.

(** ** Example trees and matchers *)

(** [cst.Name(value)] and [cst.Call(func, args)], and the matchers [m.Name]
    and [m.Call], with the fields that the examples use. *)
Definition Name_node (oid : nat) (v : string) : value :=
  VNode "Name" oid [("value", VStr v)].

Definition Call_node (oid : nat) (func : value) (args : list value) : value :=
  VNode "Call" oid [("func", func); ("args", VSeq PyList args)].

Definition Name_matcher (v : matcher) : matcher :=
  Concrete "Name" [("value", v); ("metadata", DoNotCare)].

Definition Call_matcher (func args : matcher) : matcher :=
  Concrete "Call" [("func", func); ("args", args); ("metadata", DoNotCare)].

Definition Integer_node (oid : nat) (v : string) : value :=
  VNode "Integer" oid [("value", VStr v)].

Definition SimpleString_node (oid : nat) (v : string) : value :=
  VNode "SimpleString" oid [("value", VStr v)].

Definition BinaryOperation_node (oid : nat) (left operator right : value) : value :=
  VNode "BinaryOperation" oid
    [("left", left); ("operator", operator); ("right", right)].

Definition Integer_matcher (v : matcher) : matcher :=
  Concrete "Integer" [("value", v); ("metadata", DoNotCare)].

Definition BinaryOperation_matcher (left operator right : matcher) : matcher :=
  Concrete "BinaryOperation"
    [("left", left); ("operator", operator); ("right", right);
     ("metadata", DoNotCare)].

(** ** Statements about captures and constructors *)

(** [isinstance(m, _BaseWildcardNode)] *)
Definition is_quantifier (m : matcher) : bool :=
  match m with
  | AtLeastN _ _ | AtMostN _ _ => true
  | _ => false
  end.


(** Two outcomes agree when both are the same value or both are exceptions. *)
Definition same_outcome {A} (r1 r2 : outcome A) : Prop :=
  match r1, r2 with
  | Ok a, Ok b => a = b
  | Raise _, Raise _ => True
  | Timeout, Timeout => True
  | _, _ => False
  end.

(** [DoesNotMatch(OneOf(A, B))] *)
Definition negated_OneOf (A B : matcher) : outcome matcher :=
  o ← OneOf_init [A; B];
  DoesNotMatch o.

(** [AllOf(DoesNotMatch(A), DoesNotMatch(B))] *)
Definition AllOf_of_negations (A B : matcher) : outcome matcher :=
  a ← DoesNotMatch A;
  b ← DoesNotMatch B;
  AllOf_init [a; b].

(** The options that [OneOf.__init__] keeps for one argument. *)
Definition OneOf_flat (m : matcher) : list matcher :=
  match m with OneOf options => options | _ => [m] end.

Definition is_AllOf (m : matcher) : bool :=
  match m with AllOf _ => true | _ => false end.

(** The options that [AllOf.__init__] keeps for the inverse of one matcher. *)
Definition inverse_options (m : matcher) : outcome (list matcher) :=
  x ← DoesNotMatch m; AllOf_options [x].

(** Both constructions keep the inverse options of [A], then those of [B]. *)
Definition inverse_options_pair (A B : matcher) : outcome matcher :=
  la ← inverse_options A; lb ← inverse_options B; Ok (AllOf (la ++ lb)).

(** ** The branches of [_sequence_matches] *)

(** [_matches(node, matcher)] followed by the rest of the sequence: the
    tail of [_sequence_matches] (lines 1043-1051). *)
Definition direct_step (pack : list value -> value) (node : value)
    (rest : list value) (m : matcher) (ms : list matcher)
    (lookup : metadata_lookup_t) : match_result :=
  match_capture ← _matches node m lookup;
  match match_capture with
  | Some mc =>
      sequence_capture ← _sequence_matches pack rest ms lookup;
      match sequence_capture with
      | Some sc => Ok (Some (dict_merge mc sc))
      | None => Ok None
      end
  | None => Ok None
  end.

(** The branch that consumes the matcher but not the node, then falls
    through to the tail. *)
Definition skip_step (pack : list value -> value) (node : value)
    (rest : list value) (m : matcher) (ms : list matcher)
    (lookup : metadata_lookup_t) : match_result :=
  sequence_capture ← _sequence_matches pack (node :: rest) ms lookup;
  match sequence_capture with
  | Some sc => Ok (Some sc)
  | None => direct_step pack node rest m ms lookup
  end.

(** The branch that consumes the node with the inner matcher. *)
Definition greedy_step (pack : list value -> value) (node : value)
    (rest : list value) (inner : matcher) (next : list matcher)
    (lookup : metadata_lookup_t) : match_result :=
  attribute_capture ← _attribute_matches node inner lookup;
  match attribute_capture with
  | Some ac =>
      sequence_capture ← _sequence_matches pack rest next lookup;
      match sequence_capture with
      | Some sc => Ok (Some (dict_merge ac sc))
      | None => Ok None
      end
  | None => Ok None
  end.

(** ** Statements about sequences *)

(** A matcher that [_sequence_matches] hands to [_matches]: no
    [DoNotCare], no quantifier, no [SaveMatchedNode]. *)
Definition is_direct (m : matcher) : bool :=
  match m with
  | DoNotCare | AtLeastN _ _ | AtMostN _ _ | ExtractMatchingNode _ _ => false
  | _ => true
  end.

(** A matcher that consumes exactly one value of a sequence. *)
Definition is_fixed (m : matcher) : bool :=
  match m with
  | DoNotCare => true
  | _ => is_direct m
  end.

(** A call that gives a dictionary. *)
Definition succeeds (r : match_result) : Prop := exists c, r = Ok (Some c).

(** What a matcher without quantifier asks of the value at its position. *)
Definition element_matches (lookup : metadata_lookup_t) (node : value) (m : matcher)
  : Prop :=
  m = DoNotCare \/ succeeds (_matches node m lookup).

(** ** Statements about the keys of the captures *)

(** The names of the [SaveMatchedNode] wrappers of a matcher that can
    capture: those under an [_InverseOf] never do. *)
Fixpoint capture_names (m : matcher) : list string :=
  match m with
  | MSeq _ items => flat_map capture_names items
  | Concrete _ flds => flat_map (fun f => capture_names (snd f)) flds
  | OneOf options | AllOf options => flat_map capture_names options
  | ExtractMatchingNode inner name => name :: capture_names inner
  | AtLeastN inner _ | AtMostN inner _ => capture_names inner
  | _ => []
  end.

(** The keys of a dictionary are among the given names. *)
Definition keys_within (c : captures) (names : list string) : Prop :=
  forall k, is_Some (c !! k) -> In k names.

(** A call that gives a dictionary gives one with keys among the names. *)
Definition captures_within (r : match_result) (names : list string) : Prop :=
  forall c, r = Ok (Some c) -> keys_within c names.

(** With fuel [f], the four functions only give keys among the names of the
    matcher. *)
Definition within_at (f : nat) : Prop :=
  (forall pack nodes ms lookup,
     captures_within (sequence_matches_at f pack nodes ms lookup)
       (flat_map capture_names ms)) /\
  (forall node m lookup,
     captures_within (attribute_matches_at f node m lookup) (capture_names m)) /\
  (forall node m lookup,
     captures_within (node_matches_at f node m lookup) (capture_names m)) /\
  (forall node m lookup,
     captures_within (matches_at f node m lookup) (capture_names m)).

(** ** Statements about the traversal *)

(** [isinstance(v, CSTNode)] *)
Definition is_node (v : value) : bool :=
  match v with VNode _ _ _ => true | _ => false end.

(** Whether [_matches] gives a dictionary. *)
Definition is_match (r : match_result) : bool :=
  match r with Ok (Some _) => true | _ => false end.

(** The size of a value, for inductions on trees. *)
Fixpoint vsize (v : value) : nat :=
  match v with
  | VNode _ _ attrs => 1 + list_sum (map (fun a => vsize (snd a)) attrs)
  | VSeq _ items => 1 + list_sum (map vsize items)
  | _ => 1
  end.

(** ** Statements about fields and metadata *)

(** What [_node_matches] asks of a node for one field of a concrete
    matcher. *)
Definition field_matches (lookup : metadata_lookup_t) (node : value)
    (attrs : list (string * value)) (fld : string * matcher) : Prop :=
  let (name, desired) := fld in
  if String.eqb name "_metadata" then True
  else if String.eqb name "metadata" then
    desired = DoNotCare \/ succeeds (_metadata_matches node desired lookup)
  else
    exists actual, getattr attrs name = Ok actual
                   /\ succeeds (_attribute_matches actual desired lookup).

(** What a metadata leaf asks of the metadata of a node. *)
Definition metadata_holds (lookup : metadata_lookup_t) (node : value) (m : matcher)
  : Prop :=
  match m with
  | MatchMetadata key v => lookup key node = Some v
  | MatchMetadataIfTrue key func =>
      exists actual, lookup key node = Some actual /\ func actual = true
  | _ => False
  end.

(** [MatchMetadata] and [MatchMetadataIfTrue] *)
Definition is_metadata_leaf (m : matcher) : bool :=
  match m with
  | MatchMetadata _ _ | MatchMetadataIfTrue _ _ => true
  | _ => false
  end.

(** ** The operators [|] and [&] *)

(** [self | other] for every class of the file; an object without
    [__or__], such as a [str] or a list, raises [TypeError]. *)
Definition matcher_or (self other : matcher) : outcome matcher :=
  match self with
  | AllOf _ => Raise combination_error
  | AtLeastN _ _ => Raise (Exception "AtLeastN cannot be used in a OneOf matcher")
  | AtMostN _ _ => Raise (Exception "AtMostN cannot be used in a OneOf matcher")
  | DoNotCare | MNone | MStr _ | MSeq _ _ => Raise TypeError
  | MBool a =>
      match other with
      | MBool b => Ok (MBool (a || b))
      | _ => Raise TypeError
      end
  | _ => OneOf_init [self; other]
  end.

(** [self & other] *)
Definition matcher_and (self other : matcher) : outcome matcher :=
  match self with
  | OneOf _ => Raise combination_error
  | ExtractMatchingNode _ _ =>
      Raise (Exception
        "Cannot use AllOf with SavedMatchedNode children! Instead, you should use SaveMatchedNode(AllOf(options...)).")
  | AtLeastN _ _ => Raise (Exception "AtLeastN cannot be used in an AllOf matcher")
  | AtMostN _ _ => Raise (Exception "AtMostN cannot be used in an AllOf matcher")
  | DoNotCare | MNone | MStr _ | MSeq _ _ => Raise TypeError
  | MBool a =>
      match other with
      | MBool b => Ok (MBool (a && b))
      | _ => Raise TypeError
      end
  | _ => AllOf_init [self; other]
  end.

(** [isinstance(m, OneOf)] *)
Definition is_OneOf (m : matcher) : bool :=
  match m with OneOf _ => true | _ => false end.

(** The options that [AllOf.__init__] keeps for one argument. *)
Definition AllOf_flat (m : matcher) : list matcher :=
  match m with AllOf options => options | _ => [m] end.

(** A matcher object that is no combinator, no quantifier and no
    [SaveMatchedNode]: a concrete matcher, an inverse, a predicate or a
    metadata matcher. *)
Definition is_simple (m : matcher) : bool :=
  match m with
  | Concrete _ _ | InverseOf _ | MatchIfTrue _
  | MatchMetadata _ _ | MatchMetadataIfTrue _ _ => true
  | _ => false
  end.

(** A matcher that [DoesNotMatch] wraps in an [_InverseOf]. *)
Definition is_wrapped_by_inverse (m : matcher) : bool :=
  match m with
  | OneOf _ | AllOf _ | InverseOf _ | ExtractMatchingNode _ _
  | MatchIfTrue _ | MatchMetadataIfTrue _ _ => false
  | _ => true
  end.

(** ** Statements about the negation of an [AllOf] *)

(** [DoesNotMatch(AllOf(A, B))] *)
Definition negated_AllOf (A B : matcher) : outcome matcher :=
  o ← AllOf_init [A; B];
  DoesNotMatch o.

(** [OneOf(DoesNotMatch(A), DoesNotMatch(B))] *)
Definition OneOf_of_negations (A B : matcher) : outcome matcher :=
  a ← DoesNotMatch A;
  b ← DoesNotMatch B;
  OneOf_init [a; b].

(** The options that [OneOf.__init__] keeps for the inverse of one matcher. *)
Definition inverse_choices (m : matcher) : outcome (list matcher) :=
  x ← DoesNotMatch m; OneOf_options [x].

(** Both constructions keep the inverse options of [A], then those of [B]. *)
Definition inverse_choices_pair (A B : matcher) : outcome matcher :=
  la ← inverse_choices A; lb ← inverse_choices B; Ok (OneOf (la ++ lb)).

(** ** Statements about double negation *)

(** [DoesNotMatch(DoesNotMatch(m))] *)
Definition DoesNotMatch_twice (m : matcher) : outcome matcher :=
  inverse ← DoesNotMatch m;
  DoesNotMatch inverse.

(** * [libcst/metadata/type_inference_provider.py] *)

Module TypeInferenceProvider.

(** The typed dictionaries of the cache. *)
Record Position := { line : Z; column : Z }.
Record Location := { path : string; start : Position; stop : Position }.
Record InferredType := { location : Location; annotation : string }.

(** A [CodeRange] of the [PositionProvider]. *)
Record CodeRange := { range_start : Position; range_end : Position }.

(** The keys of [self.lookup]: start line, start column, end line, end
    column. *)
Abbreviation key := (Z * Z * Z * Z)%type.

Definition item_key (item : InferredType) : key :=
  (line (start (location item)), column (start (location item)),
   line (stop (location item)), column (stop (location item))).

(** The loop of [__init__] that fills [self.lookup]. *)
Definition init_lookup (cache : list InferredType) : gmap key string :=
  foldl (fun lookup item => <[ item_key item := annotation item ]> lookup) ∅ cache.

Section Provider.

(** The nodes and their positions, [self.get_metadata(PositionProvider, node)],
    are those of the tree that is visited. *)
Context {Node : Type}.
Variable position : Node -> CodeRange.

Definition node_key (node : Node) : key :=
  let range := position node in
  (line (range_start range), column (range_start range),
   line (range_end range), column (range_end range)).

(** [_parse_metadata]: the new [self.lookup] and the annotation given to
    [self.set_metadata(node, ...)], if any. *)
Definition _parse_metadata (lookup : gmap key string) (node : Node)
  : gmap key string * option string :=
  let k := node_key node in
  match lookup !! k with
  | Some annotation => (delete k lookup, Some annotation)
  | None => (lookup, None)
  end.

Definition visit_Name := _parse_metadata.
Definition visit_Attribute := _parse_metadata.
Definition visit_Call := _parse_metadata.

(** The visits of the [Name], [Attribute] and [Call] nodes of a tree, in
    visiting order: the final [self.lookup] and the calls of [set_metadata]. *)
Fixpoint visit_nodes (lookup : gmap key string) (nodes : list Node)
  : gmap key string * list (Node * string) :=
  match nodes with
  | [] => (lookup, [])
  | node :: nodes' =>
      let (lookup', set) := _parse_metadata lookup node in
      let (final, calls) := visit_nodes lookup' nodes' in
      (final,
       match set with
       | Some annotation => (node, annotation) :: calls
       | None => calls
       end)
  end.

End Provider.

End TypeInferenceProvider.

(** ** Statements about the fuel *)

(** A call returns when its outcome is a value or an exception. *)
Definition returns {A} (r : outcome A) : Prop := r <> Timeout.

(** One more unit of fuel changes no outcome once the fuel covers the
    measure. *)
Definition stable_at (f : nat) : Prop :=
  (forall pack nodes ms lookup, sequence_fuel ms <= f ->
     sequence_matches_at (S f) pack nodes ms lookup
     = sequence_matches_at f pack nodes ms lookup) /\
  (forall node m lookup, attribute_fuel m <= f ->
     attribute_matches_at (S f) node m lookup = attribute_matches_at f node m lookup) /\
  (forall node m lookup, node_fuel m <= f ->
     node_matches_at (S f) node m lookup = node_matches_at f node m lookup) /\
  (forall node m lookup, matches_fuel m <= f ->
     matches_at (S f) node m lookup = matches_at f node m lookup).

(** With the fuel of the measure every call returns. *)
Definition returns_at (f : nat) : Prop :=
  (forall pack nodes ms lookup, sequence_fuel ms <= f ->
     returns (sequence_matches_at f pack nodes ms lookup)) /\
  (forall node m lookup, attribute_fuel m <= f ->
     returns (attribute_matches_at f node m lookup)) /\
  (forall node m lookup, node_fuel m <= f ->
     returns (node_matches_at f node m lookup)) /\
  (forall node m lookup, matches_fuel m <= f ->
     returns (matches_at f node m lookup)).

(** * Termination: the fuel of the measure is enough *)

Lemma msize_pos m : 1 <= msize m.
Proof. destruct m; simpl; lia. Qed.

Lemma esize_le m : esize m <= msize m.
Proof. destruct m; simpl; lia. Qed.

Lemma esize_sum_le ms : list_sum (map esize ms) <= list_sum (map msize ms).
Proof.
  induction ms as [|m ms IH]; simpl; [lia|].
  pose proof (esize_le m). lia.
Qed.

Lemma esize_str_items s : list_sum (map esize (map MStr (str_items s))) = 0.
Proof. induction s; simpl; auto. Qed.

(** The items of a matcher that is a sequence need less fuel than the
    matcher itself. *)
Lemma sequence_fuel_items m ms :
  matcher_as_sequence m = Some ms -> sequence_fuel ms <= 3 * msize m.
Proof.
  unfold sequence_fuel. destruct m; simpl; intros H; inversion H; subst.
  - rewrite esize_str_items. lia.
  - pose proof (esize_sum_le ms). lia.
Qed.

Lemma msize_in (ms : list matcher) :
  Forall (fun m => msize m <= list_sum (map msize ms)) ms.
Proof.
  induction ms as [|m ms IH]; constructor; simpl; [lia|].
  eapply Forall_impl; [exact IH|]. simpl. intros; lia.
Qed.

Lemma msize_in_fields (flds : list (string * matcher)) :
  Forall (fun f => msize (snd f) <= list_sum (map (fun f => msize (snd f)) flds)) flds.
Proof.
  induction flds as [|f flds IH]; constructor; simpl; [lia|].
  eapply Forall_impl; [exact IH|]. simpl. intros; lia.
Qed.

(** ** The loops only depend on the calls they make *)

Lemma first_match_ext f g options :
  Forall (fun m => f m = g m) options ->
  first_match f options = first_match g options.
Proof.
  induction 1 as [|m options Hm _ IH]; simpl; [reflexivity|].
  rewrite Hm, IH. reflexivity.
Qed.

Lemma all_match_ext f g options :
  Forall (fun m => f m = g m) options ->
  forall acc, all_match f options acc = all_match g options acc.
Proof.
  induction 1 as [|m options Hm _ IH]; simpl; intros acc; [reflexivity|].
  rewrite Hm. destruct (g m) as [[c|]| |]; simpl; auto.
Qed.

Lemma attribute_oneof_loop_ext seqf seqf' options :
  Forall (fun m => forall ms, matcher_as_sequence m = Some ms -> seqf ms = seqf' ms)
         options ->
  attribute_oneof_loop seqf options = attribute_oneof_loop seqf' options.
Proof.
  induction 1 as [|m options Hm _ IH]; simpl; [reflexivity|].
  destruct (matcher_as_sequence m) as [ms|].
  - rewrite (Hm ms eq_refl), IH. reflexivity.
  - rewrite IH. reflexivity.
Qed.

Lemma attribute_allof_loop_ext seqf seqf' options :
  Forall (fun m => forall ms, matcher_as_sequence m = Some ms -> seqf ms = seqf' ms)
         options ->
  forall acc,
    attribute_allof_loop seqf options acc = attribute_allof_loop seqf' options acc.
Proof.
  induction 1 as [|m options Hm _ IH]; simpl; intros acc; [reflexivity|].
  destruct (matcher_as_sequence m) as [ms|]; [|reflexivity].
  rewrite (Hm ms eq_refl). destruct (seqf' ms) as [[c|]| |]; simpl; auto.
Qed.

Lemma node_fields_loop_ext metaf attrf attrf' attrs flds :
  Forall (fun f => forall actual, attrf actual (snd f) = attrf' actual (snd f)) flds ->
  forall acc,
    node_fields_loop metaf attrf attrs flds acc
    = node_fields_loop metaf attrf' attrs flds acc.
Proof.
  induction 1 as [|[name desired] flds Hf _ IH]; simpl; intros acc; [reflexivity|].
  destruct (String.eqb name "_metadata"); [apply IH|].
  destruct (String.eqb name "metadata").
  - destruct desired; try apply IH;
      (destruct (metaf _) as [[c|]| |]; simpl; auto).
  - destruct (getattr attrs name) as [actual| |]; simpl; auto.
    simpl in Hf. rewrite Hf.
    destruct (attrf' actual desired) as [[c|]| |]; simpl; auto.
Qed.

(** ** The body of [_sequence_matches] only depends on smaller calls *)

Lemma sequence_fuel_cons m ms :
  sequence_fuel (m :: ms) = 3 * esize m + sequence_fuel ms.
Proof. unfold sequence_fuel. simpl. lia. Qed.

Lemma matches_fuel_element m : matches_fuel m < 3 * esize m + 3.
Proof. unfold matches_fuel. destruct m; simpl; lia. Qed.

Lemma sequence_loop_ext (f : nat) attrf attrf' matchf matchf' seqf seqf' pack :
  (forall v m, attribute_fuel m <= f -> attrf v m = attrf' v m) ->
  (forall v m, matches_fuel m <= f -> matchf v m = matchf' v m) ->
  (forall ns ms, sequence_fuel ms <= f -> seqf ns ms = seqf' ns ms) ->
  forall nodes ms,
    sequence_fuel ms <= S f ->
    sequence_loop attrf matchf seqf pack nodes ms
    = sequence_loop attrf' matchf' seqf' pack nodes ms.
Proof.
  intros Hattr Hmatch Hseq.
  induction nodes as [|node rest IH]; intros [|m ms] Hfuel; try reflexivity.
  rewrite sequence_fuel_cons in Hfuel.
  pose proof (matches_fuel_element m) as Hm.
  assert (Hrest : sequence_fuel ms <= S f) by lia.
  assert (Hms3 : 3 <= sequence_fuel ms) by (unfold sequence_fuel; lia).
  simpl.
  rewrite (Hmatch node m) by lia.
  rewrite (IH ms Hrest).
  destruct m; try reflexivity.
  - (* ExtractMatchingNode *)
    rewrite Hseq; [reflexivity|].
    rewrite sequence_fuel_cons. pose proof (esize_le m). simpl in Hfuel. lia.
  - (* AtLeastN *)
    simpl in Hfuel.
    rewrite (Hattr node m) by (unfold attribute_fuel; lia).
    destruct n as [|n'].
    + rewrite (IH (AtLeastN m 0 :: ms)) by (rewrite sequence_fuel_cons; simpl; lia).
      rewrite (Hseq (node :: rest) ms) by lia. reflexivity.
    + rewrite (IH (AtLeastN m n' :: ms)) by (rewrite sequence_fuel_cons; simpl; lia).
      reflexivity.
  - simpl in Hfuel.
    rewrite (Hattr node m) by (unfold attribute_fuel; lia).
    rewrite (Hseq (node :: rest) ms) by lia.
    destruct n as [|n']; [reflexivity|].
    rewrite (IH (AtMostN m n' :: ms)) by (rewrite sequence_fuel_cons; simpl; lia).
    reflexivity.
Qed.

(** ** One step of each function *)

Lemma sequence_matches_at_S fuel pack nodes matchers lookup :
  sequence_matches_at (S fuel) pack nodes matchers lookup
  = sequence_loop
      (fun node m => attribute_matches_at fuel node m lookup)
      (fun node m => matches_at fuel node m lookup)
      (fun nodes' ms => sequence_matches_at fuel pack nodes' ms lookup)
      pack nodes matchers.
Proof. reflexivity. Qed.

Lemma attribute_matches_at_S fuel node m lookup :
  attribute_matches_at (S fuel) node m lookup
  = match m with
    | DoNotCare => Ok (Some ∅)
    | InverseOf inner =>
        c ← attribute_matches_at fuel node inner lookup; invert_result c
    | ExtractMatchingNode inner name =>
        c ← attribute_matches_at fuel node inner lookup; capture_result c name node
    | MatchIfTrue func => empty_if (func node)
    | MNone => empty_if (is_VNone node)
    | MStr s => empty_if (value_eq_str node s)
    | MBool b => empty_if (value_is_bool node b)
    | _ =>
        match value_as_sequence node with
        | Some (pack, items) =>
            let seqf ms := sequence_matches_at fuel pack items ms lookup in
            match m with
            | OneOf options => attribute_oneof_loop seqf options
            | AllOf options => attribute_allof_loop seqf options ∅
            | MSeq _ ms => seqf ms
            | _ => Ok None
            end
        | None => matches_at fuel node m lookup
        end
    end.
Proof. reflexivity. Qed.

Lemma node_matches_at_S fuel node m lookup :
  node_matches_at (S fuel) node m lookup
  = match m with
    | InverseOf inner =>
        c ← node_matches_at fuel node inner lookup; invert_result c
    | ExtractMatchingNode inner name =>
        c ← node_matches_at fuel node inner lookup; capture_result c name node
    | MatchIfTrue func => empty_if (func node)
    | MatchMetadata _ _ | MatchMetadataIfTrue _ _ => _metadata_matches node m lookup
    | _ =>
        if negb (String.eqb (class_name node) (matcher_class_name m)) then Ok None
        else
          match m with
          | Concrete _ flds =>
              node_fields_loop
                (fun desired => _metadata_matches node desired lookup)
                (fun actual desired => attribute_matches_at fuel actual desired lookup)
                (match node with VNode _ _ attrs => attrs | _ => [] end)
                flds ∅
          | _ => Raise TypeError
          end
    end.
Proof. reflexivity. Qed.

Lemma matches_at_S fuel node m lookup :
  matches_at (S fuel) node m lookup
  = match node with
    | VMaybe => empty_if (match m with InverseOf _ => true | _ => false end)
    | _ =>
        match m with
        | OneOf options =>
            first_match (fun m' => node_matches_at fuel node m' lookup) options
        | AllOf options =>
            all_match (fun m' => node_matches_at fuel node m' lookup) options ∅
        | _ => node_matches_at fuel node m lookup
        end
    end.
Proof. reflexivity. Qed.

Lemma engine_stable f : stable_at f.
Proof.
  induction f as [|f (IHs & IHa & IHn & IHm)].
  - unfold stable_at, sequence_fuel, attribute_fuel, node_fuel, matches_fuel.
    repeat split; intros; try (pose proof (msize_pos m)); lia.
  - repeat split.
    + intros pack nodes ms lookup Hfuel.
      rewrite 2!sequence_matches_at_S.
      apply sequence_loop_ext with (f := f); auto.
    + intros node m lookup Hfuel.
      rewrite (attribute_matches_at_S (S f)), (attribute_matches_at_S f).
      unfold attribute_fuel in Hfuel.
      assert (Hopt : forall options, 3 * (1 + list_sum (map msize options)) <= S f ->
                Forall (fun m => forall ms, matcher_as_sequence m = Some ms ->
                   forall pack items,
                   sequence_matches_at (S f) pack items ms lookup
                   = sequence_matches_at f pack items ms lookup) options).
      { intros options Hle. eapply Forall_impl; [apply msize_in|]. simpl.
        intros m' Hm' ms Hms pack items. apply IHs.
        apply sequence_fuel_items in Hms. lia. }
      destruct m; simpl in Hfuel; try reflexivity;
        try (rewrite IHa by (unfold attribute_fuel; lia); reflexivity);
        destruct (value_as_sequence node) as [[pack vitems]|];
        try reflexivity;
        try (apply IHm; unfold matches_fuel; simpl; lia).
      * apply IHs. pose proof (esize_sum_le items). unfold sequence_fuel. lia.
      * apply attribute_oneof_loop_ext. eapply Forall_impl; [apply (Hopt _ Hfuel)|].
        simpl. auto.
      * apply attribute_allof_loop_ext. eapply Forall_impl; [apply (Hopt _ Hfuel)|].
        simpl. auto.
    + intros node m lookup Hfuel.
      rewrite (node_matches_at_S (S f)), (node_matches_at_S f).
      unfold node_fuel in Hfuel.
      destruct m; simpl in Hfuel; try reflexivity;
        try (rewrite IHn by (unfold node_fuel; lia); reflexivity).
      destruct (negb _); [reflexivity|].
      apply node_fields_loop_ext.
      eapply Forall_impl; [apply msize_in_fields|]. simpl.
      intros fld Hfld actual. apply IHa. unfold attribute_fuel. lia.
    + intros node m lookup Hfuel.
      rewrite (matches_at_S (S f)), (matches_at_S f).
      unfold matches_fuel in Hfuel.
      assert (Hopt : forall options, 3 * (1 + list_sum (map msize options)) - 1 <= S f ->
                Forall (fun m => node_matches_at (S f) node m lookup
                                 = node_matches_at f node m lookup) options).
      { intros options Hle. eapply Forall_impl; [apply msize_in|]. simpl.
        intros m' Hm'. apply IHn. unfold node_fuel. lia. }
      destruct node; try reflexivity;
        (destruct m; simpl in Hfuel;
         try (apply IHn; unfold node_fuel; simpl; lia);
         [apply first_match_ext; auto | apply all_match_ext; auto]).
Qed.

(** ** Every call returns *)

Lemma returns_Ok {A} (a : A) : returns (Ok a).
Proof. discriminate. Qed.

Lemma returns_Raise {A} e : returns (@Raise A e).
Proof. discriminate. Qed.

Lemma returns_bind {A B} (r : outcome A) (k : A -> outcome B) :
  returns r -> (forall a, returns (k a)) -> returns (r ≫= k).
Proof.
  intros Hr Hk. destruct r as [a|e|]; [exact (Hk a)|discriminate|].
  exfalso. apply Hr. reflexivity.
Qed.

Lemma returns_empty_if b : returns (empty_if b).
Proof. discriminate. Qed.

Lemma returns_invert_result c : returns (invert_result c).
Proof. destruct c; discriminate. Qed.

Lemma returns_capture_result c name node : returns (capture_result c name node).
Proof. destruct c; discriminate. Qed.

Lemma returns_getattr attrs name : returns (getattr attrs name).
Proof.
  induction attrs as [|[n v] attrs IH]; simpl; [discriminate|].
  destruct (String.eqb n name); [discriminate|exact IH].
Qed.

Create HintDb returns.

#[local] Hint Resolve returns_Ok returns_Raise returns_empty_if
  returns_invert_result returns_capture_result returns_getattr : returns.

Ltac returns_tac :=
  repeat first
    [ progress auto with returns
    | apply returns_bind; [|intros [?|]]
    | apply returns_bind; [|intros ?] ].

Lemma first_match_returns f options :
  Forall (fun m => returns (f m)) options -> returns (first_match f options).
Proof. induction 1; simpl; returns_tac. Qed.

Lemma all_match_returns f options :
  Forall (fun m => returns (f m)) options ->
  forall acc, returns (all_match f options acc).
Proof. induction 1; simpl; intros; returns_tac. Qed.

Lemma attribute_oneof_loop_returns seqf options :
  Forall (fun m => forall ms, matcher_as_sequence m = Some ms -> returns (seqf ms))
         options ->
  returns (attribute_oneof_loop seqf options).
Proof.
  induction 1 as [|m options Hm _ IH]; simpl; [returns_tac|].
  destruct (matcher_as_sequence m) as [ms|].
  - specialize (Hm ms eq_refl). returns_tac.
  - destruct m; returns_tac.
Qed.

Lemma attribute_allof_loop_returns seqf options :
  Forall (fun m => forall ms, matcher_as_sequence m = Some ms -> returns (seqf ms))
         options ->
  forall acc, returns (attribute_allof_loop seqf options acc).
Proof.
  induction 1 as [|m options Hm _ IH]; simpl; intros acc; [returns_tac|].
  destruct (matcher_as_sequence m) as [ms|].
  - specialize (Hm ms eq_refl). returns_tac.
  - destruct m; returns_tac.
Qed.

Lemma node_fields_loop_returns metaf attrf attrs flds :
  (forall m, returns (metaf m)) ->
  Forall (fun f => forall actual, returns (attrf actual (snd f))) flds ->
  forall acc, returns (node_fields_loop metaf attrf attrs flds acc).
Proof.
  intros Hmeta.
  induction 1 as [|[name desired] flds Hf _ IH]; simpl; intros acc; [returns_tac|].
  destruct (String.eqb name "_metadata"); [apply IH|].
  destruct (String.eqb name "metadata").
  - destruct desired; try apply IH; returns_tac.
  - simpl in Hf. returns_tac.
Qed.

(** [_metadata_matches] is defined by structural recursion; every outcome is
    a value or an exception. *)
Lemma metadata_matches_returns node lookup :
  forall n m, msize m <= n -> returns (_metadata_matches node m lookup).
Proof.
  induction n as [|n IH]; intros m Hm; [pose proof (msize_pos m); lia|].
  assert (Hopt : forall options, 1 + list_sum (map msize options) <= S n ->
            Forall (fun m => returns (_metadata_matches node m lookup)) options).
  { intros options Hle. eapply Forall_impl; [apply msize_in|]. simpl.
    intros m' Hm'. apply IH. lia. }
  destruct m; simpl in *; returns_tac.
  - apply first_match_returns; auto.
  - apply all_match_returns; auto.
  - apply IH; lia.
  - apply IH; lia.
  - destruct (lookup key node); returns_tac.
  - destruct (lookup key node); returns_tac.
Qed.

Lemma sequence_loop_returns (f : nat) attrf matchf seqf pack :
  (forall v m, attribute_fuel m <= f -> returns (attrf v m)) ->
  (forall v m, matches_fuel m <= f -> returns (matchf v m)) ->
  (forall ns ms, sequence_fuel ms <= f -> returns (seqf ns ms)) ->
  forall nodes ms,
    sequence_fuel ms <= S f ->
    returns (sequence_loop attrf matchf seqf pack nodes ms).
Proof.
  intros Hattr Hmatch Hseq.
  induction nodes as [|node rest IH]; intros [|m ms] Hfuel; simpl; returns_tac.
  rewrite sequence_fuel_cons in Hfuel.
  pose proof (matches_fuel_element m) as Hm.
  assert (Hrest : sequence_fuel ms <= S f) by lia.
  assert (Hms3 : 3 <= sequence_fuel ms) by (unfold sequence_fuel; lia).
  assert (Hdirect : returns (matchf node m)) by (apply Hmatch; lia).
  pose proof (IH ms Hrest) as Hnext.
  destruct m; returns_tac.
  - apply Hseq. rewrite sequence_fuel_cons. pose proof (esize_le m).
    simpl in Hfuel. lia.
  - simpl in Hfuel.
    assert (returns (attrf node m)) by (apply Hattr; unfold attribute_fuel; lia).
    assert (returns (seqf (node :: rest) ms)) by (apply Hseq; lia).
    destruct n as [|n']; returns_tac;
      apply IH; rewrite sequence_fuel_cons; simpl; lia.
  - simpl in Hfuel.
    assert (returns (attrf node m)) by (apply Hattr; unfold attribute_fuel; lia).
    assert (returns (seqf (node :: rest) ms)) by (apply Hseq; lia).
    destruct n as [|n']; returns_tac;
      apply IH; rewrite sequence_fuel_cons; simpl; lia.
Qed.

Lemma engine_returns f : returns_at f.
Proof.
  induction f as [|f (IHs & IHa & IHn & IHm)].
  - unfold returns_at, sequence_fuel, attribute_fuel, node_fuel, matches_fuel.
    repeat split; intros; try (pose proof (msize_pos m)); lia.
  - repeat split.
    + intros pack nodes ms lookup Hfuel.
      rewrite sequence_matches_at_S.
      apply sequence_loop_returns with (f := f); auto.
    + intros node m lookup Hfuel.
      rewrite attribute_matches_at_S.
      unfold attribute_fuel in Hfuel.
      assert (Hopt : forall options, 3 * (1 + list_sum (map msize options)) <= S f ->
                forall pack items,
                Forall (fun m => forall ms, matcher_as_sequence m = Some ms ->
                   returns (sequence_matches_at f pack items ms lookup)) options).
      { intros options Hle pack items. eapply Forall_impl; [apply msize_in|]. simpl.
        intros m' Hm' ms Hms. apply IHs.
        apply sequence_fuel_items in Hms. lia. }
      destruct m; simpl in Hfuel; returns_tac;
        try (apply IHa; unfold attribute_fuel; lia);
        destruct (value_as_sequence node) as [[pack vitems]|];
        returns_tac;
        try (apply IHm; unfold matches_fuel; simpl; lia).
      * apply IHs. pose proof (esize_sum_le items). unfold sequence_fuel. lia.
      * apply attribute_oneof_loop_returns. auto.
      * apply attribute_allof_loop_returns. auto.
    + intros node m lookup Hfuel.
      rewrite node_matches_at_S.
      unfold node_fuel in Hfuel.
      destruct m; simpl in Hfuel; returns_tac;
        try (apply IHn; unfold node_fuel; lia);
        try (destruct (negb _); returns_tac);
        try (eapply metadata_matches_returns; reflexivity).
      apply node_fields_loop_returns.
      * intros m. eapply metadata_matches_returns. reflexivity.
      * eapply Forall_impl; [apply msize_in_fields|]. simpl.
        intros fld Hfld actual. apply IHa. unfold attribute_fuel. lia.
    + intros node m lookup Hfuel.
      rewrite matches_at_S.
      unfold matches_fuel in Hfuel.
      assert (Hopt : forall options, 3 * (1 + list_sum (map msize options)) - 1 <= S f ->
                Forall (fun m => returns (node_matches_at f node m lookup)) options).
      { intros options Hle. eapply Forall_impl; [apply msize_in|]. simpl.
        intros m' Hm'. apply IHn. unfold node_fuel. lia. }
      destruct node; returns_tac;
        (destruct m; simpl in Hfuel;
         try (apply IHn; unfold node_fuel; simpl; lia);
         [apply first_match_returns; auto | apply all_match_returns; auto]).
Qed.

(** More fuel than the measure asks for changes nothing. *)
Lemma sequence_matches_at_ge f pack nodes ms lookup :
  sequence_fuel ms <= f ->
  sequence_matches_at f pack nodes ms lookup = _sequence_matches pack nodes ms lookup.
Proof.
  unfold _sequence_matches. induction 1 as [|f Hle IH]; [reflexivity|].
  rewrite <- IH. apply (engine_stable f). exact Hle.
Qed.

Lemma attribute_matches_at_ge f node m lookup :
  attribute_fuel m <= f ->
  attribute_matches_at f node m lookup = _attribute_matches node m lookup.
Proof.
  unfold _attribute_matches. induction 1 as [|f Hle IH]; [reflexivity|].
  rewrite <- IH. apply (engine_stable f). exact Hle.
Qed.

Lemma node_matches_at_ge f node m lookup :
  node_fuel m <= f ->
  node_matches_at f node m lookup = _node_matches node m lookup.
Proof.
  unfold _node_matches. induction 1 as [|f Hle IH]; [reflexivity|].
  rewrite <- IH. apply (engine_stable f). exact Hle.
Qed.

Lemma matches_at_ge f node m lookup :
  matches_fuel m <= f ->
  matches_at f node m lookup = _matches node m lookup.
Proof.
  unfold _matches. induction 1 as [|f Hle IH]; [reflexivity|].
  rewrite <- IH. apply (engine_stable f). exact Hle.
Qed.

(** ** The recursive equations of the source *)

Lemma sequence_matches_eq pack nodes matchers lookup :
  _sequence_matches pack nodes matchers lookup
  = sequence_loop
      (fun node m => _attribute_matches node m lookup)
      (fun node m => _matches node m lookup)
      (fun nodes' ms => _sequence_matches pack nodes' ms lookup)
      pack nodes matchers.
Proof.
  unfold _sequence_matches at 1.
  assert (Hf : sequence_fuel matchers = S (3 * list_sum (map esize matchers) + 2))
    by (unfold sequence_fuel; lia).
  rewrite Hf, sequence_matches_at_S.
  apply sequence_loop_ext with (f := 3 * list_sum (map esize matchers) + 2).
  - intros. apply attribute_matches_at_ge; assumption.
  - intros. apply matches_at_ge; assumption.
  - intros. apply sequence_matches_at_ge; assumption.
  - lia.
Qed.

Lemma matches_eq node m lookup :
  _matches node m lookup
  = match node with
    | VMaybe => empty_if (match m with InverseOf _ => true | _ => false end)
    | _ =>
        match m with
        | OneOf options =>
            first_match (fun m' => _node_matches node m' lookup) options
        | AllOf options =>
            all_match (fun m' => _node_matches node m' lookup) options ∅
        | _ => _node_matches node m lookup
        end
    end.
Proof.
  unfold _matches at 1.
  assert (Hf : matches_fuel m = S (3 * msize m - 2))
    by (unfold matches_fuel; pose proof (msize_pos m); lia).
  rewrite Hf, matches_at_S.
  assert (Hopt : forall options, 1 + list_sum (map msize options) <= msize m ->
            Forall (fun m' => node_matches_at (3 * msize m - 2) node m' lookup
                              = _node_matches node m' lookup) options).
  { intros options Hle. eapply Forall_impl; [apply msize_in|]. simpl.
    intros m' Hm'. apply node_matches_at_ge. unfold node_fuel. lia. }
  destruct node; try reflexivity;
    (destruct m;
     try (apply node_matches_at_ge; unfold node_fuel; simpl; lia);
     [apply first_match_ext; apply Hopt; simpl; lia
     |apply all_match_ext; apply Hopt; simpl; lia]).
Qed.

Lemma node_matches_eq node m lookup :
  _node_matches node m lookup
  = match m with
    | InverseOf inner =>
        c ← _node_matches node inner lookup; invert_result c
    | ExtractMatchingNode inner name =>
        c ← _node_matches node inner lookup; capture_result c name node
    | MatchIfTrue func => empty_if (func node)
    | MatchMetadata _ _ | MatchMetadataIfTrue _ _ => _metadata_matches node m lookup
    | _ =>
        if negb (String.eqb (class_name node) (matcher_class_name m)) then Ok None
        else
          match m with
          | Concrete _ flds =>
              node_fields_loop
                (fun desired => _metadata_matches node desired lookup)
                (fun actual desired => _attribute_matches actual desired lookup)
                (match node with VNode _ _ attrs => attrs | _ => [] end)
                flds ∅
          | _ => Raise TypeError
          end
    end.
Proof.
  unfold _node_matches at 1.
  assert (Hf : node_fuel m = S (3 * msize m - 3))
    by (unfold node_fuel; pose proof (msize_pos m); lia).
  rewrite Hf, node_matches_at_S.
  destruct m; try reflexivity;
    try (rewrite node_matches_at_ge by (unfold node_fuel; simpl; lia); reflexivity).
  destruct (negb _); [reflexivity|].
  apply node_fields_loop_ext.
  eapply Forall_impl; [apply msize_in_fields|]. simpl.
  intros fld Hfld actual. apply attribute_matches_at_ge. unfold attribute_fuel. lia.
Qed.

Lemma attribute_matches_eq node m lookup :
  _attribute_matches node m lookup
  = match m with
    | DoNotCare => Ok (Some ∅)
    | InverseOf inner =>
        c ← _attribute_matches node inner lookup; invert_result c
    | ExtractMatchingNode inner name =>
        c ← _attribute_matches node inner lookup; capture_result c name node
    | MatchIfTrue func => empty_if (func node)
    | MNone => empty_if (is_VNone node)
    | MStr s => empty_if (value_eq_str node s)
    | MBool b => empty_if (value_is_bool node b)
    | _ =>
        match value_as_sequence node with
        | Some (pack, items) =>
            let seqf ms := _sequence_matches pack items ms lookup in
            match m with
            | OneOf options => attribute_oneof_loop seqf options
            | AllOf options => attribute_allof_loop seqf options ∅
            | MSeq _ ms => seqf ms
            | _ => Ok None
            end
        | None => _matches node m lookup
        end
    end.
Proof.
  unfold _attribute_matches at 1.
  assert (Hf : attribute_fuel m = S (3 * msize m - 1))
    by (unfold attribute_fuel; pose proof (msize_pos m); lia).
  rewrite Hf, attribute_matches_at_S.
  assert (Hopt : forall options, 1 + list_sum (map msize options) <= msize m ->
            Forall (fun m' => forall ms, matcher_as_sequence m' = Some ms ->
               forall pack items,
               sequence_matches_at (3 * msize m - 1) pack items ms lookup
               = _sequence_matches pack items ms lookup) options).
  { intros options Hle. eapply Forall_impl; [apply msize_in|]. simpl.
    intros m' Hm' ms Hms pack items. apply sequence_matches_at_ge.
    apply sequence_fuel_items in Hms. lia. }
  destruct m; try reflexivity;
    try (rewrite attribute_matches_at_ge by (unfold attribute_fuel; simpl; lia);
         reflexivity);
    destruct (value_as_sequence node) as [[pack vitems]|];
    try reflexivity;
    try (apply matches_at_ge; unfold matches_fuel; simpl; lia).
  - apply sequence_matches_at_ge. pose proof (esize_sum_le items).
    unfold sequence_fuel. simpl. lia.
  - apply attribute_oneof_loop_ext.
    eapply Forall_impl; [apply Hopt; simpl; lia|]. simpl. auto.
  - apply attribute_allof_loop_ext.
    eapply Forall_impl; [apply Hopt; simpl; lia|]. simpl. auto.
Qed.

(** * The engine on examples *)

(** [extract] on a binary operation, with a capture on each operand. *)
Example extract_binary_operation :
  let one := Integer_node 1 "1" in
  let two := Integer_node 2 "2" in
  extract (BinaryOperation_node 0 one (VNode "Add" 3 []) two)
    (BinaryOperation_matcher (SaveMatchedNode DoNotCare "L") DoNotCare
       (SaveMatchedNode DoNotCare "R"))
    None
  = Ok (Some {[ "L" := one; "R" := two ]}).
Proof. vm_compute. reflexivity. Qed.

(** A capture around a node overrides a capture of the same name inside. *)
Example extract_capture_precedence :
  extract (Name_node 1 "a")
    (SaveMatchedNode (Name_matcher (SaveMatchedNode DoNotCare "x")) "x") None
  = Ok (Some {[ "x" := Name_node 1 "a" ]}).
Proof. vm_compute. reflexivity. Qed.

(** [[ZeroOrMore(), Integer()]] matches a sequence that ends with an integer;
    without a quantifier the lengths must agree. *)
Example sequence_zero_or_more :
  let nodes := [Integer_node 1 "1"; SimpleString_node 2 "a"; Integer_node 3 "2"] in
  _sequence_matches (VSeq PyList) nodes
    [ZeroOrMore DoNotCare; Integer_matcher DoNotCare]
    _construct_metadata_fetcher_null
  = Ok (Some ∅)
  /\
  _sequence_matches (VSeq PyList) nodes [Integer_matcher DoNotCare]
    _construct_metadata_fetcher_null
  = Ok None.
Proof. split; vm_compute; reflexivity. Qed.

(** A [str] is a sequence of its characters: a string field matched against
    a [OneOf] of strings is compared character by character by
    [_sequence_matches], and [_node_matches] calls [fields] on a character. *)
Example oneof_of_strings :
  matches (Name_node 1 "True") (Name_matcher (MStr "True")) None = Ok true /\
  matches (Name_node 1 "True") (Name_matcher (OneOf [MStr "True"; MStr "False"])) None
  = Raise TypeError.
Proof. split; vm_compute; reflexivity. Qed.

(** * Properties of the engine *)

(** ** Exceptions at match time *)

(** C1. The claim is that evaluating a match never raises, in particular
    when a sequence-valued field is matched against a [OneOf] or an [AllOf]
    with a [MatchIfTrue] option.  The engine raises there: the loop over the
    options evaluates [matcher.func] on the [OneOf] or [AllOf] itself, which
    has no attribute [func].  For every sequence value, a [MatchIfTrue] that
    is the first option raises [AttributeError], whatever the predicate
    returns, and so does [matches] on a call without arguments whose [args]
    are matched against [OneOf(MatchIfTrue(lambda args: True))]. *)
Theorem predicate_option_on_sequence_raises :
  (forall k items func options lookup,
     _attribute_matches (VSeq k items) (OneOf (MatchIfTrue func :: options)) lookup
     = Raise AttributeError) /\
  (forall k items func options lookup,
     _attribute_matches (VSeq k items) (AllOf (MatchIfTrue func :: options)) lookup
     = Raise AttributeError) /\
  matches (Call_node 0 (Name_node 1 "f") [])
          (Call_matcher DoNotCare (OneOf [MatchIfTrue (fun _ => true)])) None
  = Raise AttributeError.
Proof.
  split; [|split].
  - intros. rewrite attribute_matches_eq. reflexivity.
  - intros. rewrite attribute_matches_eq. reflexivity.
  - vm_compute. reflexivity.
Qed.

(** ** Captures in sequences *)




(** C2. The claim is that a [SaveMatchedNode] around an ordinary element
    matcher at the head of a sequence binds its name to the single head
    value, overriding same-named inner captures.  The engine binds the name
    to all the remaining values, and an inner capture of the same name
    overrides it: with the values [[a, b]] and the matchers
    [[SaveMatchedNode(Name(), "x"), DoNotCare()]] the name ["x"] is bound to
    the list [[a, b]], not to [a]; with the inner matcher
    [Name(value=SaveMatchedNode(DoNotCare(), "x"))] it is bound to the string
    of the inner capture. *)
Theorem capture_of_element_binds_all_remaining :
  let a := Name_node 1 "a" in
  let b := Name_node 2 "b" in
  _sequence_matches (VSeq PyList) [a; b]
    [SaveMatchedNode (Name_matcher DoNotCare) "x"; DoNotCare]
    _construct_metadata_fetcher_null
  = Ok (Some {[ "x" := VSeq PyList [a; b] ]})
  /\
  _sequence_matches (VSeq PyList) [a; b]
    [SaveMatchedNode (Name_matcher (SaveMatchedNode DoNotCare "x")) "x"; DoNotCare]
    _construct_metadata_fetcher_null
  = Ok (Some {[ "x" := VStr "a" ]})
  /\
  extract (Call_node 0 (Name_node 3 "f") [a; b])
    (Call_matcher DoNotCare
       (MSeq PyList [SaveMatchedNode (Name_matcher DoNotCare) "x"; DoNotCare]))
    None
  = Ok (Some {[ "x" := VSeq PyList [a; b] ]}).
Proof. repeat split; vm_compute; reflexivity. Qed.




(** ** The top-level guards of [extract] *)

Lemma extract_removal m resolver : extract VRemoval m resolver = Ok None.
Proof. reflexivity. Qed.

Lemma extract_forbidden node m resolver :
  forbidden_at_top_level m = true -> extract node m resolver = Ok None.
Proof. intros H. unfold extract. rewrite H. destruct node; reflexivity. Qed.

Lemma extract_maybe m resolver :
  extract VMaybe m resolver
  = empty_if (match m with InverseOf _ => true | _ => false end).
Proof.
  unfold extract. destruct (forbidden_at_top_level m) eqn:Hm.
  - destruct m; try discriminate; reflexivity.
  - rewrite matches_eq. reflexivity.
Qed.

(** C3. The claim is that [extract] returns [None] for every pattern when
    the node is a [RemovalSentinel] or a [MaybeSentinel].  [extract] only
    guards the [RemovalSentinel]; a [MaybeSentinel] reaches [_matches], which
    answers [{}] for an inverted matcher.  So [extract] of
    [MaybeSentinel.DEFAULT] against [DoesNotMatch(m.Name())] is [{}], and
    [matches] is [True]. *)
Theorem extract_maybe_sentinel_inverse_matches :
  DoesNotMatch (Name_matcher DoNotCare) = Ok (InverseOf (Name_matcher DoNotCare)) /\
  (forall inner resolver, extract VMaybe (InverseOf inner) resolver = Ok (Some ∅)) /\
  (forall inner resolver, matches VMaybe (InverseOf inner) resolver = Ok true).
Proof.
  split; [reflexivity|]. split; intros.
  - rewrite extract_maybe. reflexivity.
  - unfold matches. rewrite extract_maybe. reflexivity.
Qed.

(** ** [AllOf] on a sequence value *)

(** Without predicates among the options, the options of an [AllOf] are
    matched in order against the whole sequence and their captures are
    merged, later options overriding. *)
Lemma attribute_matches_AllOf_sequence k items options lookup :
  _attribute_matches (VSeq k items) (AllOf options) lookup
  = attribute_allof_loop
      (fun ms => _sequence_matches (VSeq k) items ms lookup) options ∅.
Proof. rewrite attribute_matches_eq. reflexivity. Qed.

(** C4. The claim is that an [AllOf] matched against a sequence value
    succeeds when every option, sequence pattern or predicate, succeeds.  A
    [MatchIfTrue] option that is reached raises [AttributeError] instead,
    because the loop evaluates [matcher.func] on the [AllOf]: after a
    sequence pattern that succeeds, the predicate is not evaluated and the
    match raises.  On the empty sequence, [AllOf([], MatchIfTrue(lambda s:
    True))] raises although both options hold. *)
Theorem allof_predicate_option_raises :
  (forall k k' items ms func options lookup,
     _attribute_matches (VSeq k items)
       (AllOf (MSeq k' ms :: MatchIfTrue func :: options)) lookup
     = c ← _sequence_matches (VSeq k) items ms lookup;
       match c with
       | None => Ok None
       | Some _ => Raise AttributeError
       end) /\
  _attribute_matches (VSeq PyList [])
    (AllOf [MSeq PyList []; MatchIfTrue (fun _ => true)])
    _construct_metadata_fetcher_null
  = Raise AttributeError.
Proof.
  split.
  - intros. rewrite attribute_matches_AllOf_sequence. simpl.
    destruct (_sequence_matches (VSeq k) items ms lookup) as [[c|]|e|]; reflexivity.
  - vm_compute. reflexivity.
Qed.

(** ** Constructors *)

Lemma same_outcome_refl {A} (r : outcome A) : same_outcome r r.
Proof. destruct r; simpl; auto. Qed.

Lemma OneOf_options_returns options : returns (OneOf_options options).
Proof.
  induction options as [|m options IH]; simpl; [discriminate|].
  destruct m; try discriminate; apply returns_bind; auto; discriminate.
Qed.

Lemma AllOf_options_returns options : returns (AllOf_options options).
Proof.
  induction options as [|m options IH]; simpl; [discriminate|].
  destruct m; try discriminate; apply returns_bind; auto; discriminate.
Qed.

Lemma comprehension_returns f options :
  Forall (fun m => returns (f m)) options -> returns (comprehension f options).
Proof.
  induction 1; simpl; [discriminate|].
  apply returns_bind; auto. intros y. apply returns_bind; auto. discriminate.
Qed.

Lemma DoesNotMatch_returns_sized n : forall m, msize m <= n -> returns (DoesNotMatch m).
Proof.
  induction n as [|n IH]; intros m Hm; [pose proof (msize_pos m); lia|].
  assert (Hopt : forall options, 1 + list_sum (map msize options) <= S n ->
            returns (comprehension DoesNotMatch options)).
  { intros options Hle. apply comprehension_returns.
    eapply Forall_impl; [apply msize_in|]. simpl. intros m' Hm'. apply IH. lia. }
  destruct m; simpl in *; try discriminate.
  - apply returns_bind; auto. intros inv. unfold AllOf_init.
    apply returns_bind; [apply AllOf_options_returns|discriminate].
  - apply returns_bind; auto. intros inv. unfold OneOf_init.
    apply returns_bind; [apply OneOf_options_returns|discriminate].
Qed.

Lemma DoesNotMatch_returns m : returns (DoesNotMatch m).
Proof. apply (DoesNotMatch_returns_sized (msize m)). lia. Qed.

(** [AllOf.__init__] flattens each option on its own. *)
Lemma AllOf_options_cons m options :
  AllOf_options (m :: options)
  = la ← AllOf_options [m]; lb ← AllOf_options options; Ok (la ++ lb)%list.
Proof.
  destruct m; simpl; try reflexivity;
    destruct (AllOf_options options); simpl; rewrite ?app_nil_r; reflexivity.
Qed.

Lemma AllOf_options_app l1 l2 :
  AllOf_options (l1 ++ l2)
  = la ← AllOf_options l1; lb ← AllOf_options l2; Ok (la ++ lb)%list.
Proof.
  induction l1 as [|m l1 IH]; simpl app.
  - simpl. destruct (AllOf_options l2); reflexivity.
  - rewrite (AllOf_options_cons m (l1 ++ l2)), (AllOf_options_cons m l1), IH.
    destruct (AllOf_options [m]) as [la| |]; try reflexivity.
    destruct (AllOf_options l1) as [la1| |]; try reflexivity.
    destruct (AllOf_options l2) as [la2| |]; try reflexivity.
    simpl. rewrite app_assoc. reflexivity.
Qed.

Lemma comprehension_app f l1 l2 :
  comprehension f (l1 ++ l2)
  = xs ← comprehension f l1; ys ← comprehension f l2; Ok (xs ++ ys)%list.
Proof.
  induction l1 as [|m l1 IH]; simpl.
  - destruct (comprehension f l2); reflexivity.
  - destruct (f m) as [x| |]; try reflexivity. simpl. rewrite IH.
    destruct (comprehension f l1) as [xs| |]; try reflexivity.
    destruct (comprehension f l2) as [ys| |]; reflexivity.
Qed.

Lemma OneOf_init_pair A B :
  OneOf_init [A; B]
  = if is_AllOf A || is_AllOf B then Raise combination_error
    else Ok (OneOf (OneOf_flat A ++ OneOf_flat B)).
Proof.
  unfold OneOf_init.
  destruct A; destruct B; simpl; rewrite ?app_nil_r; reflexivity.
Qed.

Lemma inverse_options_flat m :
  is_AllOf m = false ->
  inverse_options m = inv ← comprehension DoesNotMatch (OneOf_flat m); AllOf_options inv.
Proof.
  unfold inverse_options. intros Hm.
  destruct m; try discriminate; try reflexivity.
  (* OneOf *)
  simpl. destruct (comprehension DoesNotMatch options) as [inv| |]; try reflexivity.
    simpl. unfold AllOf_init. destruct (AllOf_options inv) as [la| |]; try reflexivity.
    simpl. rewrite app_nil_r. reflexivity.
Qed.

Lemma inverse_options_AllOf m :
  is_AllOf m = true -> exists e, inverse_options m = Raise e.
Proof.
  unfold inverse_options. destruct m; try discriminate. intros _.
  pose proof (DoesNotMatch_returns (AllOf options)) as Hr.
  simpl in *. destruct (comprehension DoesNotMatch options) as [inv|e|].
  - simpl in *. unfold OneOf_init in *.
    destruct (OneOf_options inv) as [l|e|]; simpl in *; eauto.
    exfalso; apply Hr; reflexivity.
  - eauto.
  - exfalso; apply Hr; reflexivity.
Qed.

Lemma inverse_options_returns m : returns (inverse_options m).
Proof.
  unfold inverse_options. apply returns_bind; [apply DoesNotMatch_returns|].
  intros x. apply AllOf_options_returns.
Qed.

Lemma AllOf_of_negations_norm A B :
  same_outcome (AllOf_of_negations A B) (inverse_options_pair A B).
Proof.
  unfold AllOf_of_negations, inverse_options_pair, inverse_options, AllOf_init.
  pose proof (DoesNotMatch_returns A) as HA.
  pose proof (DoesNotMatch_returns B) as HB.
  destruct (DoesNotMatch A) as [a|ea|]; [|exact I|exfalso; apply HA; reflexivity].
  destruct (DoesNotMatch B) as [b|eb|]; [| |exfalso; apply HB; reflexivity].
  - cbn -[AllOf_options]. rewrite (AllOf_options_cons a [b]).
    destruct (AllOf_options [a]) as [la| |]; cbn -[AllOf_options]; auto.
    destruct (AllOf_options [b]) as [lb| |]; cbn -[AllOf_options]; auto.
  - cbn -[AllOf_options]. pose proof (AllOf_options_returns [a]) as Ha.
    destruct (AllOf_options [a]) as [la| |]; cbn -[AllOf_options]; auto.
Qed.

Lemma negated_OneOf_norm A B :
  same_outcome (negated_OneOf A B) (inverse_options_pair A B).
Proof.
  unfold negated_OneOf, inverse_options_pair. rewrite OneOf_init_pair.
  pose proof (inverse_options_returns A) as HA.
  pose proof (inverse_options_returns B) as HB.
  destruct (is_AllOf A) eqn:EA.
  { destruct (inverse_options_AllOf A EA) as [e He]. rewrite He. exact I. }
  destruct (is_AllOf B) eqn:EB.
  { destruct (inverse_options_AllOf B EB) as [e He]. rewrite He in *.
    destruct (inverse_options A); simpl; auto. }
  rewrite (inverse_options_flat A EA) in *. rewrite (inverse_options_flat B EB) in *.
  simpl. rewrite comprehension_app.
  destruct (comprehension DoesNotMatch (OneOf_flat A)) as [ia|ea|]; simpl in *;
    [|exact I|exfalso; apply HA; reflexivity].
  destruct (comprehension DoesNotMatch (OneOf_flat B)) as [ib|eb|]; simpl in *;
    [| |exfalso; apply HB; reflexivity].
  - unfold AllOf_init. rewrite AllOf_options_app.
    destruct (AllOf_options ia) as [la| |]; simpl; auto.
    destruct (AllOf_options ib) as [lb| |]; simpl; auto.
  - destruct (AllOf_options ia) as [la| |]; simpl; auto.
Qed.

Lemma same_outcome_trans_via {A} (r1 r2 r : outcome A) :
  same_outcome r1 r -> same_outcome r2 r -> same_outcome r1 r2.
Proof. destruct r1, r2, r; simpl; intros; subst; auto; contradiction. Qed.

Lemma same_outcome_bind {A B} (r1 r2 : outcome A) (k : A -> outcome B) :
  same_outcome r1 r2 -> same_outcome (r1 ≫= k) (r2 ≫= k).
Proof.
  destruct r1, r2; simpl; intros H; subst; auto; try contradiction.
  apply same_outcome_refl.
Qed.

Lemma dict_merge_empty : dict_merge ∅ ∅ = (∅ : captures).
Proof. unfold dict_merge. apply (left_id_L ∅ (∪)). Qed.

(** At run time, on a node, the inverse of a [OneOf] answers as the [AllOf]
    of the inverses of its options. *)
Lemma all_match_inverses (f : matcher -> match_result) options :
  all_match (fun m => c ← f m; invert_result c) options ∅
  = c ← first_match f options; invert_result c.
Proof.
  induction options as [|m options IH]; simpl; [reflexivity|].
  destruct (f m) as [[c|]|e|]; simpl; try reflexivity.
  rewrite dict_merge_empty. exact IH.
Qed.

Lemma all_match_map f (g : matcher -> matcher) options acc :
  all_match f (map g options) acc = all_match (fun m => f (g m)) options acc.
Proof.
  revert acc. induction options as [|m options IH]; intros acc; simpl; [reflexivity|].
  destruct (f (g m)) as [[c|]|e|]; simpl; auto.
Qed.

Lemma inverse_of_OneOf_on_node cls oid attrs options lookup :
  _attribute_matches (VNode cls oid attrs) (InverseOf (OneOf options)) lookup
  = _attribute_matches (VNode cls oid attrs) (AllOf (map InverseOf options)) lookup.
Proof.
  rewrite (attribute_matches_eq _ (InverseOf _)).
  rewrite (attribute_matches_eq _ (OneOf _)), (attribute_matches_eq _ (AllOf _)).
  simpl. rewrite (matches_eq _ (OneOf _)), (matches_eq _ (AllOf _)).
  rewrite all_match_map.
  rewrite <- all_match_inverses.
  apply all_match_ext. apply Forall_forall. intros m _.
  rewrite (node_matches_eq _ (InverseOf m)). reflexivity.
Qed.

(** C6. De Morgan: [DoesNotMatch(OneOf(A, B))] and
    [AllOf(DoesNotMatch(A), DoesNotMatch(B))] are the same matcher, or both
    constructions raise; so for every node and resolver [matches] has the
    same boolean outcome on both.  At run time the [_InverseOf] wrapper
    agrees with this normal form: on a field whose value is a node,
    [_InverseOf(OneOf(A, B))] has the outcome of
    [AllOf(_InverseOf(A), _InverseOf(B))], with no capture. *)
Theorem de_morgan_negated_OneOf (A B : matcher) :
  same_outcome (negated_OneOf A B) (AllOf_of_negations A B) /\
  (forall node resolver,
     same_outcome (m ← negated_OneOf A B; matches node m resolver)
                  (m ← AllOf_of_negations A B; matches node m resolver)) /\
  (forall cls oid attrs lookup,
     _attribute_matches (VNode cls oid attrs) (InverseOf (OneOf [A; B])) lookup
     = _attribute_matches (VNode cls oid attrs)
         (AllOf [InverseOf A; InverseOf B]) lookup).
Proof.
  assert (H : same_outcome (negated_OneOf A B) (AllOf_of_negations A B)).
  { eapply same_outcome_trans_via;
      [apply negated_OneOf_norm|apply AllOf_of_negations_norm]. }
  split; [exact H|]. split.
  - intros node resolver. apply same_outcome_bind. exact H.
  - intros. apply (inverse_of_OneOf_on_node cls oid attrs [A; B]).
Qed.

(** ** Termination *)

Lemma matches_returns node m lookup : returns (_matches node m lookup).
Proof. apply (engine_returns (matches_fuel m)). lia. Qed.

Lemma on_visit_all_returns m lookup nodes : returns (on_visit_all m lookup nodes).
Proof.
  induction nodes as [|node nodes IH]; simpl; [discriminate|].
  apply returns_bind; [apply matches_returns|]. intros c.
  apply returns_bind; [exact IH|]. discriminate.
Qed.

Lemma extract_returns node m resolver : returns (extract node m resolver).
Proof.
  unfold extract. destruct node; try discriminate;
    destruct (forbidden_at_top_level m); try discriminate; apply matches_returns.
Qed.

Lemma find_or_extract_all_returns tree m resolver :
  returns (_find_or_extract_all tree m resolver).
Proof.
  unfold _find_or_extract_all.
  destruct tree as [[]|w]; try discriminate;
    destruct m; try discriminate; apply on_visit_all_returns.
Qed.

(** C7. Matching terminates.  The size of the matchers, which counts the
    constructors and the counts of the quantifiers, bounds the depth of the
    calls that keep all the remaining values, and the other calls consume a
    value: with any fuel that covers this measure, the sequence search and
    the node match return a dictionary, [None] or an exception, and the
    outcome is the one of the functions of the source.  [extract], [matches]
    and the traversal of [findall] and [extractall] always return. *)
Theorem matching_terminates fuel pack nodes matchers node m lookup :
  sequence_fuel matchers <= fuel ->
  matches_fuel m <= fuel ->
  (returns (sequence_matches_at fuel pack nodes matchers lookup) /\
   sequence_matches_at fuel pack nodes matchers lookup
   = _sequence_matches pack nodes matchers lookup) /\
  (returns (matches_at fuel node m lookup) /\
   matches_at fuel node m lookup = _matches node m lookup) /\
  (forall resolver, returns (extract node m resolver)) /\
  (forall resolver, returns (matches node m resolver)) /\
  (forall tree resolver, returns (_find_or_extract_all tree m resolver)).
Proof.
  intros Hs Hm. repeat split.
  - apply (engine_returns fuel). exact Hs.
  - apply sequence_matches_at_ge. exact Hs.
  - apply (engine_returns fuel). exact Hm.
  - apply matches_at_ge. exact Hm.
  - intros. apply extract_returns.
  - intros. unfold matches. apply returns_bind; [apply extract_returns|discriminate].
  - intros. apply find_or_extract_all_returns.
Qed.

Lemma matching_terminates_witness :
  let matchers := [ZeroOrMore DoNotCare; Name_matcher (MStr "b")] in
  let m := Call_matcher DoNotCare (MSeq PyList matchers) in
  let nodes := [Name_node 1 "a"; Name_node 2 "b"] in
  sequence_fuel matchers <= 40 /\ matches_fuel m <= 40 /\
  returns (sequence_matches_at 40 (VSeq PyList) nodes matchers
             _construct_metadata_fetcher_null) /\
  returns (matches_at 40 (Call_node 0 (Name_node 3 "f") nodes) m
             _construct_metadata_fetcher_null).
Proof.
  intros matchers m nodes.
  assert (Hs : sequence_fuel matchers <= 40) by (vm_compute; lia).
  assert (Hm : matches_fuel m <= 40) by (vm_compute; lia).
  split; [exact Hs|]. split; [exact Hm|].
  pose proof (matching_terminates 40 (VSeq PyList) nodes matchers
                (Call_node 0 (Name_node 3 "f") nodes) m
                _construct_metadata_fetcher_null Hs Hm) as H.
  split; [apply H|apply H].
Defined.

(** ** Metadata *)

(** C8. [MatchMetadata(P, v)] against a node: when the lookup reports the
    metadata as missing the match fails, whatever [v] is; when the lookup
    gives a value the match succeeds, with no capture, exactly when that
    value equals [v], and fails otherwise.  [_node_matches] and, for a node,
    [_matches] hand the matcher to [_metadata_matches], and the [metadata]
    field of a concrete matcher is matched the same way. *)
Theorem match_metadata_missing_or_equal node P v lookup :
  (lookup P node = None ->
     _metadata_matches node (MatchMetadata P v) lookup = Ok None) /\
  (forall actual, lookup P node = Some actual ->
     (_metadata_matches node (MatchMetadata P v) lookup = Ok (Some ∅) <-> actual = v) /\
     (actual <> v -> _metadata_matches node (MatchMetadata P v) lookup = Ok None)) /\
  _node_matches node (MatchMetadata P v) lookup
  = _metadata_matches node (MatchMetadata P v) lookup /\
  (node <> VMaybe ->
     _matches node (MatchMetadata P v) lookup
     = _metadata_matches node (MatchMetadata P v) lookup).
Proof.
  repeat split.
  - intros H. simpl. rewrite H. reflexivity.
  - simpl. rewrite H. unfold empty_if. case_bool_decide; congruence.
  - intros ->. simpl. rewrite H. unfold empty_if. rewrite bool_decide_eq_true_2; auto.
  - intros Hne. simpl. rewrite H. unfold empty_if.
    rewrite bool_decide_eq_false_2; auto.
  - intros Hne. destruct node; try reflexivity. congruence.
Qed.

Lemma match_metadata_missing_or_equal_witness :
  let node := Name_node 1 "a" in
  let lookup : metadata_lookup_t :=
    fun P n => if String.eqb P "ExpressionContextProvider"
               then Some (MetaEnum "ExpressionContext" "LOAD") else None in
  lookup "ScopeProvider" node = None /\
  _metadata_matches node
    (MatchMetadata "ScopeProvider" (MetaEnum "ExpressionContext" "LOAD")) lookup
  = Ok None /\
  lookup "ExpressionContextProvider" node = Some (MetaEnum "ExpressionContext" "LOAD") /\
  (MetaEnum "ExpressionContext" "LOAD" <> MetaEnum "ExpressionContext" "STORE") /\
  _metadata_matches node
    (MatchMetadata "ExpressionContextProvider" (MetaEnum "ExpressionContext" "STORE"))
    lookup
  = Ok None.
Proof.
  intros node lookup.
  assert (H1 : lookup "ScopeProvider" node = None) by reflexivity.
  assert (H2 : lookup "ExpressionContextProvider" node
               = Some (MetaEnum "ExpressionContext" "LOAD")) by reflexivity.
  assert (H3 : MetaEnum "ExpressionContext" "LOAD" <> MetaEnum "ExpressionContext" "STORE")
    by discriminate.
  split; [exact H1|]. split.
  { destruct (match_metadata_missing_or_equal node "ScopeProvider"
                (MetaEnum "ExpressionContext" "LOAD") lookup) as (Hmissing & _).
    apply Hmissing. exact H1. }
  split; [exact H2|]. split; [exact H3|].
  destruct (match_metadata_missing_or_equal node "ExpressionContextProvider"
              (MetaEnum "ExpressionContext" "STORE") lookup) as (_ & Hpresent & _).
  destruct (Hpresent _ H2) as (_ & Hfail). apply Hfail. exact H3.
Defined.

(** ** Empty combinators *)

(** C9. [AllOf()] with no option is accepted by the constructor and, as the
    pattern of [extract], matches every node with no capture; [OneOf()] with
    no option is accepted too and matches no node. *)
Theorem empty_AllOf_matches_every_node :
  AllOf_init [] = Ok (AllOf []) /\
  OneOf_init [] = Ok (OneOf []) /\
  (forall cls oid attrs resolver,
     extract (VNode cls oid attrs) (AllOf []) resolver = Ok (Some ∅)) /\
  (forall cls oid attrs resolver,
     matches (VNode cls oid attrs) (AllOf []) resolver = Ok true) /\
  (forall node resolver, extract node (OneOf []) resolver = Ok None) /\
  (forall node resolver, matches node (OneOf []) resolver = Ok false).
Proof.
  assert (H : forall node resolver, extract node (OneOf []) resolver = Ok None).
  { intros node resolver. destruct node; reflexivity. }
  repeat split; try reflexivity; auto.
  intros. unfold matches. rewrite H. reflexivity.
Qed.

(** ** The top-level guards of [findall] and [extractall] *)

(** C10. [findall] and [extractall] with a bare [AtLeastN] or [AtMostN] as
    the matcher return an empty sequence for every tree and resolver, and so
    do they for every matcher when the tree is a [RemovalSentinel] or a
    [MaybeSentinel]; no exception is raised. *)
Theorem findall_extractall_guards :
  (forall tree inner n resolver,
     findall tree (AtLeastN inner n) resolver = Ok [] /\
     extractall tree (AtLeastN inner n) resolver = Ok [] /\
     findall tree (AtMostN inner n) resolver = Ok [] /\
     extractall tree (AtMostN inner n) resolver = Ok []) /\
  (forall m resolver,
     findall (Tree VRemoval) m resolver = Ok [] /\
     extractall (Tree VRemoval) m resolver = Ok [] /\
     findall (Tree VMaybe) m resolver = Ok [] /\
     extractall (Tree VMaybe) m resolver = Ok []).
Proof.
  split.
  - intros tree inner n resolver. destruct tree as [[]|w]; repeat split; reflexivity.
  - intros m resolver. repeat split; reflexivity.
Qed.

(** * Further properties of the engine *)

#[global] Arguments _sequence_matches : simpl never.
#[global] Arguments _attribute_matches : simpl never.
#[global] Arguments _node_matches : simpl never.
#[global] Arguments _matches : simpl never.
#[global] Arguments dict_merge : simpl never.

(** ** The sequence matcher, step by step *)

Lemma sequence_matches_nil pack ms lookup :
  _sequence_matches pack [] ms lookup
  = match ms with
    | [] => Ok (Some ∅)
    | _ :: _ => empty_if (forallb matches_no_node ms)
    end.
Proof. rewrite sequence_matches_eq. destruct ms; reflexivity. Qed.

Lemma sequence_matches_cons_nil pack node rest lookup :
  _sequence_matches pack (node :: rest) [] lookup = Ok None.
Proof. rewrite sequence_matches_eq. reflexivity. Qed.

Lemma sequence_matches_cons pack node rest m ms lookup :
  _sequence_matches pack (node :: rest) (m :: ms) lookup
  = match m with
    | DoNotCare => _sequence_matches pack rest ms lookup
    | AtMostN inner (S n') =>
        found ← greedy_step pack node rest inner (AtMostN inner n' :: ms) lookup;
        match found with
        | Some c => Ok (Some c)
        | None => skip_step pack node rest m ms lookup
        end
    | AtMostN inner 0 => skip_step pack node rest m ms lookup
    | AtLeastN inner (S n') =>
        found ← greedy_step pack node rest inner (AtLeastN inner n' :: ms) lookup;
        match found with
        | Some c => Ok (Some c)
        | None => direct_step pack node rest m ms lookup
        end
    | AtLeastN inner 0 =>
        found ← greedy_step pack node rest inner (m :: ms) lookup;
        match found with
        | Some c => Ok (Some c)
        | None => skip_step pack node rest m ms lookup
        end
    | ExtractMatchingNode inner name =>
        sequence_capture ← _sequence_matches pack (node :: rest) (inner :: ms) lookup;
        match sequence_capture with
        | Some sc => Ok (Some (dict_merge {[ name := pack (node :: rest) ]} sc))
        | None => Ok None
        end
    | _ => direct_step pack node rest m ms lookup
    end.
Proof.
  unfold skip_step, greedy_step, direct_step.
  rewrite (sequence_matches_eq pack (node :: rest) (m :: ms)).
  rewrite (sequence_matches_eq pack rest ms).
  destruct m; try reflexivity.
  - destruct n as [|n'].
    + rewrite (sequence_matches_eq pack rest (AtLeastN m 0 :: ms)). reflexivity.
    + rewrite (sequence_matches_eq pack rest (AtLeastN m n' :: ms)). reflexivity.
  - destruct n as [|n']; [reflexivity|].
    rewrite (sequence_matches_eq pack rest (AtMostN m n' :: ms)). reflexivity.
Qed.

(** ** Sequences of wildcards *)

Lemma succeeds_Ok_None : ~ succeeds (Ok None).
Proof. intros [c H]. discriminate. Qed.

Lemma succeeds_Raise e : ~ succeeds (Raise e).
Proof. intros [c H]. discriminate. Qed.

Lemma succeeds_Timeout : ~ succeeds Timeout.
Proof. intros [c H]. discriminate. Qed.

Lemma succeeds_Ok_Some c : succeeds (Ok (Some c)).
Proof. eexists; reflexivity. Qed.

Lemma sequence_matches_direct pack node rest m ms lookup :
  is_direct m = true ->
  _sequence_matches pack (node :: rest) (m :: ms) lookup
  = direct_step pack node rest m ms lookup.
Proof.
  intros Hm. rewrite sequence_matches_cons. destruct m; try discriminate; reflexivity.
Qed.

(** [_matches] on a quantifier compares class names and then calls
    [fields] on the quantifier. *)
Lemma matches_quantifier node q lookup :
  is_quantifier q = true ->
  _matches node q lookup
  = match node with
    | VMaybe => Ok None
    | _ => if negb (String.eqb (class_name node) (matcher_class_name q))
           then Ok None else Raise TypeError
    end.
Proof.
  intros Hq. rewrite matches_eq.
  destruct q; try discriminate;
    (destruct node; try reflexivity; rewrite node_matches_eq; reflexivity).
Qed.

Lemma matches_quantifier_fails node q lookup :
  is_quantifier q = true -> ~ succeeds (_matches node q lookup).
Proof.
  intros Hq. rewrite (matches_quantifier _ _ _ Hq).
  destruct node; try apply succeeds_Ok_None;
    (destruct (negb _); [apply succeeds_Ok_None|apply succeeds_Raise]).
Qed.

Lemma direct_step_quantifier_fails pack node rest q ms lookup :
  is_quantifier q = true -> ~ succeeds (direct_step pack node rest q ms lookup).
Proof.
  intros Hq. unfold direct_step.
  pose proof (matches_quantifier_fails node q lookup Hq) as Hn.
  destruct (_matches node q lookup) as [[mc|]|e|].
  - exfalso. apply Hn. apply succeeds_Ok_Some.
  - apply succeeds_Ok_None.
  - apply succeeds_Raise.
  - apply succeeds_Timeout.
Qed.

Lemma attribute_matches_DoNotCare node lookup :
  _attribute_matches node DoNotCare lookup = Ok (Some ∅).
Proof. rewrite attribute_matches_eq. reflexivity. Qed.

Lemma greedy_step_DoNotCare pack node rest next lookup :
  greedy_step pack node rest DoNotCare next lookup
  = sc ← _sequence_matches pack rest next lookup;
    match sc with
    | Some sc => Ok (Some (dict_merge ∅ sc))
    | None => Ok None
    end.
Proof. unfold greedy_step. rewrite attribute_matches_DoNotCare. reflexivity. Qed.

(** X1. a list of [k] [DoNotCare()] matches exactly the sequences of [k]
    values, with no capture and without looking at the values. *)
Theorem do_not_care_matches_by_length pack nodes k lookup :
  _sequence_matches pack nodes (replicate k DoNotCare) lookup
  = Ok (if decide (List.length nodes = k) then Some ∅ else None).
Proof.
  revert k. induction nodes as [|node rest IH]; intros [|k]; simpl replicate.
  - rewrite sequence_matches_nil. reflexivity.
  - rewrite sequence_matches_nil. reflexivity.
  - rewrite sequence_matches_cons_nil. reflexivity.
  - rewrite sequence_matches_cons, IH. simpl.
    destruct (decide (List.length rest = k)); destruct (decide (S (List.length rest) = S k));
      try reflexivity; lia.
Qed.

(** X2. [[AtLeastN(n=k)]] matches exactly the sequences of at least [k]
    values, with no capture. *)
Theorem at_least_n_counts pack nodes k lookup :
  (_sequence_matches pack nodes [AtLeastN DoNotCare k] lookup = Ok (Some ∅)
   <-> k <= List.length nodes) /\
  (succeeds (_sequence_matches pack nodes [AtLeastN DoNotCare k] lookup)
   -> k <= List.length nodes).
Proof.
  revert k. induction nodes as [|node rest IH]; intros k.
  - rewrite sequence_matches_nil. destruct k as [|k]; simpl; split.
    + split; [lia|reflexivity].
    + lia.
    + split; [discriminate|lia].
    + intros H. exfalso. revert H. apply succeeds_Ok_None.
  - rewrite sequence_matches_cons. destruct k as [|k].
    + rewrite greedy_step_DoNotCare.
      destruct (IH 0) as [[_ H0] _]. rewrite H0 by lia. simpl.
      rewrite dict_merge_empty. split; [split; [lia|reflexivity]|lia].
    + rewrite greedy_step_DoNotCare. destruct (IH k) as [[Hk1 Hk2] Hk3].
      destruct (_sequence_matches pack rest [AtLeastN DoNotCare k] lookup)
        as [[sc|]|e|] eqn:Hr; simpl.
      * assert (k <= List.length rest) by (apply Hk3, succeeds_Ok_Some).
        assert (sc = ∅) by (specialize (Hk2 H); congruence).
        subst sc. rewrite dict_merge_empty. split; [split; [lia|reflexivity]|lia].
      * assert (~ k <= List.length rest) by (intros Hle; specialize (Hk2 Hle); discriminate).
        pose proof (direct_step_quantifier_fails pack node rest
                      (AtLeastN DoNotCare (S k)) [] lookup eq_refl) as Hd.
        split; [split|].
        -- intros H'. exfalso. apply Hd. rewrite H'. apply succeeds_Ok_Some.
        -- lia.
        -- intros H'. contradiction.
      * assert (~ k <= List.length rest) by (intros Hle; specialize (Hk2 Hle); discriminate).
        split; [split; [discriminate|lia]|].
        intros H'. exfalso. revert H'. apply succeeds_Raise.
      * assert (~ k <= List.length rest) by (intros Hle; specialize (Hk2 Hle); discriminate).
        split; [split; [discriminate|lia]|].
        intros H'. exfalso. revert H'. apply succeeds_Timeout.
Qed.

Lemma skip_step_last_fails pack node rest q lookup :
  is_quantifier q = true -> ~ succeeds (skip_step pack node rest q [] lookup).
Proof.
  intros Hq. unfold skip_step. rewrite sequence_matches_cons_nil. simpl.
  apply direct_step_quantifier_fails. exact Hq.
Qed.

(** X3. [[AtMostN(n=k)]] matches exactly the sequences of at most [k]
    values, with no capture. *)
Theorem at_most_n_counts pack nodes k lookup :
  (_sequence_matches pack nodes [AtMostN DoNotCare k] lookup = Ok (Some ∅)
   <-> List.length nodes <= k) /\
  (succeeds (_sequence_matches pack nodes [AtMostN DoNotCare k] lookup)
   -> List.length nodes <= k).
Proof.
  revert k. induction nodes as [|node rest IH]; intros k.
  - rewrite sequence_matches_nil. simpl. split; [split; [lia|reflexivity]|lia].
  - rewrite sequence_matches_cons.
    pose proof (skip_step_last_fails pack node rest (AtMostN DoNotCare k) lookup eq_refl)
      as Hskip.
    destruct k as [|k]; simpl.
    + split; [split|].
      * intros H. exfalso. apply Hskip. rewrite H. apply succeeds_Ok_Some.
      * lia.
      * intros H. contradiction.
    + rewrite greedy_step_DoNotCare. destruct (IH k) as [[Hk1 Hk2] Hk3].
      destruct (_sequence_matches pack rest [AtMostN DoNotCare k] lookup)
        as [[sc|]|e|]; simpl.
      * assert (Hle : List.length rest <= k) by (apply Hk3, succeeds_Ok_Some).
        assert (sc = ∅) by (specialize (Hk2 Hle); congruence).
        subst sc. rewrite dict_merge_empty. split; [split; [lia|reflexivity]|lia].
      * assert (~ List.length rest <= k)
          by (intros Hle; specialize (Hk2 Hle); discriminate).
        split; [split|].
        -- intros H'. exfalso. apply Hskip. rewrite H'. apply succeeds_Ok_Some.
        -- lia.
        -- intros H'. contradiction.
      * assert (~ List.length rest <= k)
          by (intros Hle; specialize (Hk2 Hle); discriminate).
        split; [split; [discriminate|lia]|].
        intros H'. exfalso. revert H'. apply succeeds_Raise.
      * assert (~ List.length rest <= k)
          by (intros Hle; specialize (Hk2 Hle); discriminate).
        split; [split; [discriminate|lia]|].
        intros H'. exfalso. revert H'. apply succeeds_Timeout.
Qed.

Lemma sequence_matches_fixed_cons pack node rest m ms lookup :
  is_fixed m = true ->
  succeeds (_sequence_matches pack (node :: rest) (m :: ms) lookup)
  <-> element_matches lookup node m
      /\ succeeds (_sequence_matches pack rest ms lookup).
Proof.
  intros Hm. unfold element_matches.
  assert (Hcases : m = DoNotCare \/ (is_direct m = true /\ m <> DoNotCare))
    by (destruct m; try discriminate; auto; right; split; auto; discriminate).
  destruct Hcases as [->|[Hd Hne]].
  - rewrite sequence_matches_cons. tauto.
  - rewrite (sequence_matches_direct _ _ _ _ _ _ Hd). unfold direct_step.
    destruct (_matches node m lookup) as [[mc|]|e|]; simpl.
    + destruct (_sequence_matches pack rest ms lookup) as [[sc|]|e|]; simpl;
        split; try (intros [_ [c H]]; discriminate);
        try (intros [c H]; discriminate).
      intros _. split; [right|]; apply succeeds_Ok_Some.
      intros _. apply succeeds_Ok_Some.
    + split; [intros [c H]; discriminate|].
      intros [[H|[c H]] _]; [contradiction|discriminate].
    + split; [intros [c H]; discriminate|].
      intros [[H|[c H]] _]; [contradiction|discriminate].
    + split; [intros [c H]; discriminate|].
      intros [[H|[c H]] _]; [contradiction|discriminate].
Qed.

(** X4. a sequence pattern without quantifier and without [SaveMatchedNode]
    element matches exactly the sequences of the same length whose values
    match element by element. *)
Theorem fixed_pattern_matches_elementwise pack nodes ms lookup :
  Forall (fun m => is_fixed m = true) ms ->
  succeeds (_sequence_matches pack nodes ms lookup)
  <-> Forall2 (element_matches lookup) nodes ms.
Proof.
  intros Hms. revert nodes.
  induction Hms as [|m ms Hm Hms IH]; intros nodes.
  - destruct nodes as [|node rest].
    + rewrite sequence_matches_nil. split; [constructor|]. intros _.
      apply succeeds_Ok_Some.
    + rewrite sequence_matches_cons_nil. split.
      * intros H. exfalso. revert H. apply succeeds_Ok_None.
      * intros H. inversion H.
  - destruct nodes as [|node rest].
    + rewrite sequence_matches_nil.
      assert (Hno : matches_no_node m = false) by (destruct m; try discriminate; reflexivity).
      simpl. rewrite Hno. simpl. split.
      * intros H. exfalso. revert H. apply succeeds_Ok_None.
      * intros H. inversion H.
    + rewrite (sequence_matches_fixed_cons _ _ _ _ _ _ Hm), IH. split.
      * intros [H1 H2]. constructor; assumption.
      * intros H. inversion H; subst. split; assumption.
Qed.

Lemma fixed_pattern_matches_elementwise_witness :
  let nodes := [Name_node 1 "a"; Integer_node 2 "1"] in
  let ms := [Name_matcher (MStr "a"); DoNotCare] in
  succeeds (_sequence_matches (VSeq PyList) nodes ms _construct_metadata_fetcher_null)
  <-> Forall2 (element_matches _construct_metadata_fetcher_null) nodes ms.
Proof.
  intros nodes ms.
  apply (fixed_pattern_matches_elementwise (VSeq PyList) nodes ms
           _construct_metadata_fetcher_null).
  repeat constructor.
Defined.

(** [ZeroOrMore()] alone matches every sequence. *)
Lemma zero_or_more_matches_all pack nodes lookup :
  _sequence_matches pack nodes [AtLeastN DoNotCare 0] lookup = Ok (Some ∅).
Proof.
  induction nodes as [|node rest IH].
  - rewrite sequence_matches_nil. reflexivity.
  - rewrite sequence_matches_cons, greedy_step_DoNotCare, IH. simpl.
    rewrite dict_merge_empty. reflexivity.
Qed.

Lemma Exists_succeeds_dec (f : value -> match_result) nodes :
  Exists (fun node => succeeds (f node)) nodes
  \/ ~ Exists (fun node => succeeds (f node)) nodes.
Proof.
  induction nodes as [|n rest IH].
  - right. intros H. inversion H.
  - destruct IH as [H|H]; [left; right; exact H|].
    destruct (f n) as [[c|]|e|] eqn:Hn.
    + left. left. rewrite Hn. apply succeeds_Ok_Some.
    + right. intros H'. inversion H' as [? ? Hh|? ? Ht]; subst; auto.
      rewrite Hn in Hh. revert Hh. apply succeeds_Ok_None.
    + right. intros H'. inversion H' as [? ? Hh|? ? Ht]; subst; auto.
      rewrite Hn in Hh. revert Hh. apply succeeds_Raise.
    + right. intros H'. inversion H' as [? ? Hh|? ? Ht]; subst; auto.
      rewrite Hn in Hh. revert Hh. apply succeeds_Timeout.
Qed.

(** One step of the search of [[ZeroOrMore(), X, ZeroOrMore()]]: the values
    after the first one are searched first, then the first one is tried. *)
Lemma zero_or_more_around_cons pack node rest X lookup :
  is_direct X = true ->
  class_name node <> "AtLeastN" ->
  _sequence_matches pack (node :: rest)
    [AtLeastN DoNotCare 0; X; AtLeastN DoNotCare 0] lookup
  = later ← _sequence_matches pack rest
              [AtLeastN DoNotCare 0; X; AtLeastN DoNotCare 0] lookup;
    match later with
    | Some sc => Ok (Some (dict_merge ∅ sc))
    | None =>
        here ← _matches node X lookup;
        match here with
        | Some mc => Ok (Some (dict_merge mc ∅))
        | None => Ok None
        end
    end.
Proof.
  intros HX Hc. rewrite sequence_matches_cons, greedy_step_DoNotCare.
  destruct (_sequence_matches pack rest
              [AtLeastN DoNotCare 0; X; AtLeastN DoNotCare 0] lookup)
    as [[sc|]|e|]; simpl; try reflexivity.
  unfold skip_step. rewrite (sequence_matches_direct _ _ _ _ _ _ HX).
  unfold direct_step. rewrite zero_or_more_matches_all.
  destruct (_matches node X lookup) as [[mc|]|e|]; simpl; try reflexivity.
  rewrite (matches_quantifier node (AtLeastN DoNotCare 0) lookup eq_refl).
  assert (Hname : negb (String.eqb (class_name node) "AtLeastN") = true).
  { apply negb_true_iff. apply String.eqb_neq. exact Hc. }
  simpl matcher_class_name. rewrite Hname. destruct node; reflexivity.
Qed.

(** X5. [[ZeroOrMore(), X, ZeroOrMore()]] finds a value that matches [X]
    anywhere in the sequence. *)
Theorem zero_or_more_around_finds_anywhere pack nodes X lookup :
  is_direct X = true ->
  Forall (fun node => class_name node <> "AtLeastN") nodes ->
  Forall (fun node => exists r, _matches node X lookup = Ok r) nodes ->
  (Exists (fun node => succeeds (_matches node X lookup)) nodes ->
   succeeds (_sequence_matches pack nodes
               [ZeroOrMore DoNotCare; X; ZeroOrMore DoNotCare] lookup)) /\
  (~ Exists (fun node => succeeds (_matches node X lookup)) nodes ->
   _sequence_matches pack nodes
     [ZeroOrMore DoNotCare; X; ZeroOrMore DoNotCare] lookup = Ok None).
Proof.
  intros HX Hcls Hret. unfold ZeroOrMore.
  induction nodes as [|node rest IH].
  - rewrite sequence_matches_nil.
    assert (Hno : matches_no_node X = false) by (destruct X; try discriminate; reflexivity).
    simpl. rewrite Hno. simpl. split.
    + intros H. inversion H.
    + reflexivity.
  - inversion Hcls as [|? ? Hc Hcls']; subst.
    inversion Hret as [|? ? [r0 Hr0] Hret']; subst.
    specialize (IH Hcls' Hret'). destruct IH as [IH1 IH2].
    rewrite (zero_or_more_around_cons _ _ _ _ _ HX Hc), Hr0.
    destruct (Exists_succeeds_dec (fun node => _matches node X lookup) rest)
      as [Hlater|Hlater].
    + destruct (IH1 Hlater) as [sc Hsc]. rewrite Hsc. simpl. split.
      * intros _. apply succeeds_Ok_Some.
      * intros Hnone. exfalso. apply Hnone. right. exact Hlater.
    + rewrite (IH2 Hlater). simpl. destruct r0 as [mc|]; simpl; split.
      * intros _. apply succeeds_Ok_Some.
      * intros Hnone. exfalso. apply Hnone. left. rewrite Hr0.
        apply succeeds_Ok_Some.
      * intros HE. exfalso. inversion HE as [? ? Hh|? ? Ht]; subst.
        -- rewrite Hr0 in Hh. revert Hh. apply succeeds_Ok_None.
        -- contradiction.
      * reflexivity.
Qed.

Lemma zero_or_more_around_finds_anywhere_witness :
  let nodes := [Integer_node 1 "1"; Name_node 2 "a"; Integer_node 3 "2"] in
  succeeds (_sequence_matches (VSeq PyList) nodes
              [ZeroOrMore DoNotCare; Name_matcher DoNotCare; ZeroOrMore DoNotCare]
              _construct_metadata_fetcher_null).
Proof.
  intros nodes.
  destruct (zero_or_more_around_finds_anywhere (VSeq PyList) nodes
              (Name_matcher DoNotCare) _construct_metadata_fetcher_null) as [Hfound _].
  - reflexivity.
  - repeat constructor; discriminate.
  - repeat constructor; eexists; vm_compute; reflexivity.
  - apply Hfound. right. left. eexists. vm_compute. reflexivity.
Defined.

(** ** The options of a combinator *)

Lemma first_match_first f options c :
  first_match f options = Ok (Some c)
  <-> exists before m after,
        options = (before ++ m :: after)%list
        /\ Forall (fun m' => f m' = Ok None) before
        /\ f m = Ok (Some c).
Proof.
  induction options as [|m options IH]; simpl.
  - split; [discriminate|]. intros (before & m & after & H & _).
    destruct before; discriminate.
  - destruct (f m) as [[c'|]|e|] eqn:Hm; simpl.
    + split.
      * intros H. exists [], m, options. split; [reflexivity|].
        split; [constructor|]. congruence.
      * intros (before & m' & after & H & Hb & Hc).
        destruct before as [|b before]; simpl in H; inversion H; subst.
        -- congruence.
        -- inversion Hb; subst. congruence.
    + rewrite IH. split.
      * intros (before & m' & after & H & Hb & Hc).
        exists (m :: before), m', after. subst. split; [reflexivity|].
        split; [constructor; assumption|exact Hc].
      * intros (before & m' & after & H & Hb & Hc).
        destruct before as [|b before]; simpl in H; inversion H; subst.
        -- congruence.
        -- inversion Hb; subst. exists before, m', after. auto.
    + split; [discriminate|].
      intros (before & m' & after & H & Hb & Hc).
      destruct before as [|b before]; simpl in H; inversion H; subst.
      * congruence.
      * inversion Hb; subst. congruence.
    + split; [discriminate|].
      intros (before & m' & after & H & Hb & Hc).
      destruct before as [|b before]; simpl in H; inversion H; subst.
      * congruence.
      * inversion Hb; subst. congruence.
Qed.

Lemma all_match_every f options :
  forall acc c,
    all_match f options acc = Ok (Some c)
    <-> exists cs, Forall2 (fun m c' => f m = Ok (Some c')) options cs
                   /\ c = foldl dict_merge acc cs.
Proof.
  induction options as [|m options IH]; intros acc c; simpl.
  - split.
    + intros H. exists []. split; [constructor|]. simpl. congruence.
    + intros (cs & H & Hc). inversion H; subst. reflexivity.
  - destruct (f m) as [[c'|]|e|] eqn:Hm; simpl.
    + rewrite IH. split.
      * intros (cs & H & Hc). exists (c' :: cs). split; [constructor; assumption|].
        exact Hc.
      * intros (cs & H & Hc). inversion H as [|? c1 ? cs' H1 H2]; subst.
        assert (c1 = c') by congruence. subst c1. exists cs'. auto.
    + split; [discriminate|]. intros (cs & H & _). inversion H; subst. congruence.
    + split; [discriminate|]. intros (cs & H & _). inversion H; subst. congruence.
    + split; [discriminate|]. intros (cs & H & _). inversion H; subst. congruence.
Qed.

(** X6. [extract] with a [OneOf] gives the dictionary of the first option
    that matches the node: the options before it do not match, and the ones
    after it are not evaluated. *)
Theorem oneof_first_option_wins cls oid attrs options resolver c :
  let node := VNode cls oid attrs in
  let lookup := fetcher_of resolver in
  extract node (OneOf options) resolver = Ok (Some c)
  <-> exists before m after,
        options = (before ++ m :: after)%list
        /\ Forall (fun m' => _node_matches node m' lookup = Ok None) before
        /\ _node_matches node m lookup = Ok (Some c).
Proof.
  cbv zeta. unfold extract. simpl forbidden_at_top_level. cbv iota.
  rewrite matches_eq. apply first_match_first.
Qed.

(** X7. [extract] with an [AllOf] succeeds exactly when every option matches
    the node, and gives the dictionaries of the options merged in order, a
    later option overriding an earlier one. *)
Theorem allof_merges_every_option cls oid attrs options resolver c :
  let node := VNode cls oid attrs in
  let lookup := fetcher_of resolver in
  extract node (AllOf options) resolver = Ok (Some c)
  <-> exists cs,
        Forall2 (fun m c' => _node_matches node m lookup = Ok (Some c')) options cs
        /\ c = foldl dict_merge ∅ cs.
Proof.
  cbv zeta. unfold extract. simpl forbidden_at_top_level. cbv iota.
  rewrite matches_eq. apply all_match_every.
Qed.

(** ** The keys of the captures *)

Lemma keys_within_empty names : keys_within ∅ names.
Proof. intros k [v Hv]. rewrite lookup_empty in Hv. discriminate. Qed.

Lemma keys_within_merge a b names :
  keys_within a names -> keys_within b names -> keys_within (dict_merge a b) names.
Proof.
  intros Ha Hb k Hk. unfold dict_merge in Hk.
  apply lookup_union_is_Some in Hk. destruct Hk; auto.
Qed.

Lemma keys_within_set c name v names :
  keys_within c names -> In name names -> keys_within (dict_set c name v) names.
Proof.
  intros Hc Hn k Hk. unfold dict_set in Hk.
  destruct (decide (name = k)) as [->|Hne]; [assumption|].
  rewrite lookup_insert_ne in Hk by assumption. auto.
Qed.

Lemma keys_within_singleton name v names :
  In name names -> keys_within ({[ name := v ]} : captures) names.
Proof.
  intros Hn k [x Hk]. destruct (decide (name = k)) as [->|Hne]; [assumption|].
  rewrite lookup_singleton_ne in Hk by assumption. discriminate.
Qed.

Lemma keys_within_mono c names names' :
  incl names names' -> keys_within c names -> keys_within c names'.
Proof. intros Hi Hc k Hk. apply Hi. auto. Qed.

Lemma captures_within_mono r names names' :
  incl names names' -> captures_within r names -> captures_within r names'.
Proof. intros Hi Hr c Hc. eapply keys_within_mono; eauto. Qed.

Lemma captures_within_Ok_None names : captures_within (Ok None) names.
Proof. intros c H. discriminate. Qed.

Lemma captures_within_Raise e names : captures_within (Raise e) names.
Proof. intros c H. discriminate. Qed.

Lemma captures_within_Timeout names : captures_within Timeout names.
Proof. intros c H. discriminate. Qed.

Lemma captures_within_Ok_Some c names :
  keys_within c names -> captures_within (Ok (Some c)) names.
Proof. intros Hc c' H. inversion H; subst. exact Hc. Qed.

Lemma captures_within_empty_if b names : captures_within (empty_if b) names.
Proof.
  destruct b; [apply captures_within_Ok_Some, keys_within_empty
              |apply captures_within_Ok_None].
Qed.

(** The shape of every step of the engine: a call, then a continuation on
    its dictionary. *)
Lemma captures_within_bind (r : match_result) (k : option captures -> match_result)
    names names' :
  captures_within r names ->
  (forall c, keys_within c names -> captures_within (k (Some c)) names') ->
  captures_within (k None) names' ->
  captures_within (r ≫= k) names'.
Proof.
  intros Hr Hs Hn. destruct r as [[c|]|e|].
  - apply Hs. apply Hr. reflexivity.
  - exact Hn.
  - apply captures_within_Raise.
  - apply captures_within_Timeout.
Qed.

Lemma captures_within_invert (r : match_result) names :
  captures_within (r ≫= invert_result) names.
Proof.
  destruct r as [[c|]|e|]; simpl.
  - apply captures_within_Ok_None.
  - apply captures_within_Ok_Some, keys_within_empty.
  - apply captures_within_Raise.
  - apply captures_within_Timeout.
Qed.

Lemma captures_within_capture r name node names :
  captures_within r names ->
  captures_within (r ≫= fun c => capture_result c name node) (name :: names).
Proof.
  intros Hr. destruct r as [[c|]|e|]; simpl.
  - apply captures_within_Ok_Some. apply keys_within_set; [|left; reflexivity].
    eapply keys_within_mono; [|apply Hr; reflexivity]. intros x Hx. right. exact Hx.
  - apply captures_within_Ok_None.
  - apply captures_within_Raise.
  - apply captures_within_Timeout.
Qed.

Lemma first_match_within f options names :
  Forall (fun m => captures_within (f m) names) options ->
  captures_within (first_match f options) names.
Proof.
  induction 1 as [|m options Hm _ IH]; simpl; [apply captures_within_Ok_None|].
  eapply captures_within_bind; [exact Hm| |exact IH].
  intros c Hc. apply captures_within_Ok_Some. exact Hc.
Qed.

Lemma all_match_within f options names :
  Forall (fun m => captures_within (f m) names) options ->
  forall acc, keys_within acc names ->
  captures_within (all_match f options acc) names.
Proof.
  induction 1 as [|m options Hm _ IH]; simpl; intros acc Hacc.
  - apply captures_within_Ok_Some. exact Hacc.
  - eapply captures_within_bind; [exact Hm| |apply captures_within_Ok_None].
    intros c Hc. apply IH. apply keys_within_merge; assumption.
Qed.

Lemma attribute_oneof_loop_within seqf options names :
  Forall (fun m => forall ms, matcher_as_sequence m = Some ms ->
                   captures_within (seqf ms) names) options ->
  captures_within (attribute_oneof_loop seqf options) names.
Proof.
  induction 1 as [|m options Hm _ IH]; simpl; [apply captures_within_Ok_None|].
  destruct (matcher_as_sequence m) as [ms|].
  - eapply captures_within_bind; [exact (Hm ms eq_refl)| |exact IH].
    intros c Hc. apply captures_within_Ok_Some. exact Hc.
  - destruct m; try exact IH. apply captures_within_Raise.
Qed.

Lemma attribute_allof_loop_within seqf options names :
  Forall (fun m => forall ms, matcher_as_sequence m = Some ms ->
                   captures_within (seqf ms) names) options ->
  forall acc, keys_within acc names ->
  captures_within (attribute_allof_loop seqf options acc) names.
Proof.
  induction 1 as [|m options Hm _ IH]; simpl; intros acc Hacc.
  - apply captures_within_Ok_Some. exact Hacc.
  - destruct (matcher_as_sequence m) as [ms|].
    + eapply captures_within_bind;
        [exact (Hm ms eq_refl)| |apply captures_within_Ok_None].
      intros c Hc. apply IH. apply keys_within_merge; assumption.
    + destruct m; try apply captures_within_Ok_None. apply captures_within_Raise.
Qed.

Lemma node_fields_loop_within metaf attrf attrs flds names :
  Forall (fun f => captures_within (metaf (snd f)) names
                   /\ forall actual, captures_within (attrf actual (snd f)) names)
         flds ->
  forall acc, keys_within acc names ->
  captures_within (node_fields_loop metaf attrf attrs flds acc) names.
Proof.
  induction 1 as [|[name desired] flds [Hmeta Hattr] _ IH]; simpl; intros acc Hacc.
  - apply captures_within_Ok_Some. exact Hacc.
  - simpl in Hmeta, Hattr.
    destruct (String.eqb name "_metadata"); [apply IH; exact Hacc|].
    destruct (String.eqb name "metadata").
    + assert (Hgo : captures_within
                (metaf desired ≫= fun metadata_capture =>
                   match metadata_capture with
                   | None => Ok None
                   | Some c =>
                       node_fields_loop metaf attrf attrs flds (dict_merge acc c)
                   end) names).
      { eapply captures_within_bind; [exact Hmeta| |apply captures_within_Ok_None].
        intros c Hc. apply IH. apply keys_within_merge; assumption. }
      destruct desired; try exact Hgo. apply IH. exact Hacc.
    + destruct (getattr attrs name) as [actual|e|]; simpl;
        [|apply captures_within_Raise|apply captures_within_Timeout].
      eapply captures_within_bind; [apply Hattr| |apply captures_within_Ok_None].
      intros c Hc. apply IH. apply keys_within_merge; assumption.
Qed.

Lemma capture_names_items m ms :
  matcher_as_sequence m = Some ms -> flat_map capture_names ms = capture_names m.
Proof.
  destruct m; simpl; intros H; inversion H; subst; try reflexivity.
  clear. induction s; simpl; auto.
Qed.

Lemma capture_names_in (ms : list matcher) :
  Forall (fun m => incl (capture_names m) (flat_map capture_names ms)) ms.
Proof.
  induction ms as [|m ms IH]; constructor; simpl.
  - apply incl_appl, incl_refl.
  - eapply Forall_impl; [exact IH|]. simpl. intros m' H. apply incl_appr. exact H.
Qed.

Lemma capture_names_in_fields (flds : list (string * matcher)) :
  Forall (fun f => incl (capture_names (snd f))
                     (flat_map (fun f => capture_names (snd f)) flds)) flds.
Proof.
  induction flds as [|f flds IH]; constructor; simpl.
  - apply incl_appl, incl_refl.
  - eapply Forall_impl; [exact IH|]. simpl. intros m' H. apply incl_appr. exact H.
Qed.

Lemma metadata_matches_within node lookup :
  forall n m, msize m <= n ->
    captures_within (_metadata_matches node m lookup) (capture_names m).
Proof.
  induction n as [|n IH]; intros m Hm; [pose proof (msize_pos m); lia|].
  assert (Hopt : forall options, 1 + list_sum (map msize options) <= S n ->
            Forall (fun m => captures_within (_metadata_matches node m lookup)
                               (flat_map capture_names options)) options).
  { intros options Hle.
    pose proof (msize_in options) as Hs. pose proof (capture_names_in options) as Hc.
    rewrite Forall_forall in *. intros m' Hin.
    eapply captures_within_mono; [apply Hc; exact Hin|].
    apply IH. specialize (Hs m' Hin). simpl in Hs. lia. }
  destruct m; simpl in *; try apply captures_within_Raise.
  - apply first_match_within. auto.
  - apply all_match_within; [auto|apply keys_within_empty].
  - apply captures_within_invert.
  - apply captures_within_capture. apply IH. lia.
  - destruct (lookup key node); [apply captures_within_empty_if
                                |apply captures_within_Ok_None].
  - destruct (lookup key node); [apply captures_within_empty_if
                                |apply captures_within_Ok_None].
Qed.

Lemma sequence_loop_within attrf matchf seqf pack :
  (forall v m, captures_within (attrf v m) (capture_names m)) ->
  (forall v m, captures_within (matchf v m) (capture_names m)) ->
  (forall ns ms, captures_within (seqf ns ms) (flat_map capture_names ms)) ->
  forall nodes ms,
    captures_within (sequence_loop attrf matchf seqf pack nodes ms)
      (flat_map capture_names ms).
Proof.
  intros Hattr Hmatch Hseq.
  induction nodes as [|node rest IH]; intros [|m ms].
  - apply captures_within_Ok_Some, keys_within_empty.
  - apply captures_within_empty_if.
  - apply captures_within_Ok_None.
  - set (names := flat_map capture_names (m :: ms)).
    assert (Hhead : incl (capture_names m) names) by (apply incl_appl, incl_refl).
    assert (Htail : incl (flat_map capture_names ms) names)
      by (apply incl_appr, incl_refl).
    assert (Hmerge : forall (a : captures) (r : match_result),
              keys_within a names -> captures_within r names ->
              captures_within
                (r ≫= fun sequence_capture =>
                   match sequence_capture with
                   | Some sc => Ok (Some (dict_merge a sc))
                   | None => Ok None
                   end) names).
    { intros a r Ha Hr. eapply captures_within_bind;
        [exact Hr| |apply captures_within_Ok_None].
      intros c Hc. apply captures_within_Ok_Some. apply keys_within_merge; assumption. }
    assert (Hdirect : captures_within
              (matchf node m ≫= fun match_capture =>
                 match match_capture with
                 | Some mc =>
                     sequence_loop attrf matchf seqf pack rest ms
                     ≫= fun sequence_capture =>
                          match sequence_capture with
                          | Some sc => Ok (Some (dict_merge mc sc))
                          | None => Ok None
                          end
                 | None => Ok None
                 end) names).
    { eapply captures_within_bind;
        [apply Hmatch| |apply captures_within_Ok_None].
      intros c Hc. apply Hmerge.
      - eapply keys_within_mono; [exact Hhead|exact Hc].
      - eapply captures_within_mono; [exact Htail|apply IH]. }
    assert (Hskip : captures_within
              (seqf (node :: rest) ms ≫= fun sequence_capture =>
                 match sequence_capture with
                 | Some sc => Ok (Some sc)
                 | None =>
                     matchf node m ≫= fun match_capture =>
                       match match_capture with
                       | Some mc =>
                           sequence_loop attrf matchf seqf pack rest ms
                           ≫= fun sequence_capture =>
                                match sequence_capture with
                                | Some sc => Ok (Some (dict_merge mc sc))
                                | None => Ok None
                                end
                       | None => Ok None
                       end
                 end) names).
    { eapply captures_within_bind;
        [eapply captures_within_mono; [exact Htail|apply Hseq]| |exact Hdirect].
      intros c Hc. apply captures_within_Ok_Some. exact Hc. }
    assert (Hgreedy : forall inner next,
              incl (capture_names inner) names ->
              incl (flat_map capture_names next) names ->
              captures_within
                (attrf node inner ≫= fun attribute_capture =>
                   match attribute_capture with
                   | Some ac =>
                       sequence_loop attrf matchf seqf pack rest next
                       ≫= fun sequence_capture =>
                            match sequence_capture with
                            | Some sc => Ok (Some (dict_merge ac sc))
                            | None => Ok None
                            end
                   | None => Ok None
                   end) names).
    { intros inner next Hi Hn. eapply captures_within_bind;
        [apply Hattr| |apply captures_within_Ok_None].
      intros c Hc. apply Hmerge.
      - eapply keys_within_mono; [exact Hi|exact Hc].
      - eapply captures_within_mono; [exact Hn|apply IH]. }
    destruct m; try exact Hdirect.
    + (* DoNotCare *)
      eapply captures_within_mono; [exact Htail|apply IH].
    + (* ExtractMatchingNode *)
      simpl. eapply captures_within_bind;
        [apply Hseq| |apply captures_within_Ok_None].
      intros c Hc. apply captures_within_Ok_Some. apply keys_within_merge.
      * apply keys_within_singleton. left. reflexivity.
      * eapply keys_within_mono; [|exact Hc]. intros x Hx. right. exact Hx.
    + (* AtLeastN *)
      destruct n as [|n']; simpl.
      * eapply captures_within_bind;
          [apply (Hgreedy m (AtLeastN m 0 :: ms)); [exact Hhead|apply incl_refl]
          | |exact Hskip].
        intros c Hc. apply captures_within_Ok_Some. exact Hc.
      * eapply captures_within_bind;
          [apply (Hgreedy m (AtLeastN m n' :: ms)); [exact Hhead|apply incl_refl]
          | |exact Hdirect].
        intros c Hc. apply captures_within_Ok_Some. exact Hc.
    + (* AtMostN *)
      destruct n as [|n']; simpl; [exact Hskip|].
      eapply captures_within_bind;
        [apply (Hgreedy m (AtMostN m n' :: ms)); [exact Hhead|apply incl_refl]
        | |exact Hskip].
      intros c Hc. apply captures_within_Ok_Some. exact Hc.
Qed.

Lemma engine_within f : within_at f.
Proof.
  induction f as [|f (IHs & IHa & IHn & IHm)].
  - repeat split; intros; apply captures_within_Timeout.
  - repeat split.
    + intros pack nodes ms lookup. rewrite sequence_matches_at_S.
      apply sequence_loop_within; auto.
    + intros node m lookup. rewrite attribute_matches_at_S.
      assert (Hopt : forall options pack items,
                Forall (fun m => forall ms, matcher_as_sequence m = Some ms ->
                   captures_within (sequence_matches_at f pack items ms lookup)
                     (flat_map capture_names options)) options).
      { intros options pack items. pose proof (capture_names_in options) as Hc.
        rewrite Forall_forall in *. intros m' Hin ms Hms.
        eapply captures_within_mono; [apply Hc; exact Hin|].
        rewrite <- (capture_names_items _ _ Hms). apply IHs. }
      destruct m; try apply captures_within_empty_if;
        try (destruct (value_as_sequence node) as [[pack vitems]|];
             [try apply captures_within_Ok_None|apply IHm]).
      * apply captures_within_Ok_Some, keys_within_empty.
      * apply IHs.
      * apply attribute_oneof_loop_within. apply Hopt.
      * apply attribute_allof_loop_within; [apply Hopt|apply keys_within_empty].
      * apply captures_within_invert.
      * apply captures_within_capture. apply IHa.
    + intros node m lookup. rewrite node_matches_at_S.
      destruct m; try apply captures_within_empty_if;
        try (destruct (negb _);
             [apply captures_within_Ok_None|apply captures_within_Raise]).
      * destruct (negb _); [apply captures_within_Ok_None|].
        apply node_fields_loop_within; [|apply keys_within_empty].
        pose proof (capture_names_in_fields flds) as Hc.
        rewrite Forall_forall in *. intros fld Hin. split.
        -- eapply captures_within_mono; [apply Hc; exact Hin|].
           eapply metadata_matches_within. reflexivity.
        -- intros actual. eapply captures_within_mono; [apply Hc; exact Hin|].
           apply IHa.
      * apply captures_within_invert.
      * apply captures_within_capture. apply IHn.
      * eapply metadata_matches_within. reflexivity.
      * eapply metadata_matches_within. reflexivity.
    + intros node m lookup. rewrite matches_at_S.
      assert (Hopt : forall options,
                Forall (fun m => captures_within (node_matches_at f node m lookup)
                                   (flat_map capture_names options)) options).
      { intros options. pose proof (capture_names_in options) as Hc.
        rewrite Forall_forall in *. intros m' Hin.
        eapply captures_within_mono; [apply Hc; exact Hin|]. apply IHn. }
      destruct node; try apply captures_within_empty_if;
        (destruct m; try apply IHn;
         [apply first_match_within; apply Hopt
         |apply all_match_within; [apply Hopt|apply keys_within_empty]]).
Qed.

(** X8. the keys of the dictionary that [extract] returns are names of
    [SaveMatchedNode] wrappers of the matcher; a matcher without such a
    wrapper captures nothing. *)
Theorem extract_keys_are_saved_names node m resolver c :
  extract node m resolver = Ok (Some c) ->
  (forall k, is_Some (c !! k) -> In k (capture_names m)) /\
  (capture_names m = [] -> c = ∅).
Proof.
  intros H.
  assert (Hk : keys_within c (capture_names m)).
  { unfold extract in H.
    destruct node; try discriminate;
      (destruct (forbidden_at_top_level m); [discriminate|]);
      exact (proj2 (proj2 (proj2 (engine_within (matches_fuel m)))) _ m _ c H). }
  split; [exact Hk|].
  intros Hnil. rewrite Hnil in Hk. apply map_empty. intros k.
  destruct (c !! k) eqn:Hck; [|reflexivity].
  exfalso. apply (Hk k). eauto.
Qed.

Lemma extract_keys_are_saved_names_witness :
  In "L" (capture_names
            (BinaryOperation_matcher (SaveMatchedNode DoNotCare "L") DoNotCare
               (SaveMatchedNode DoNotCare "R"))).
Proof.
  apply (extract_keys_are_saved_names
           (BinaryOperation_node 0 (Integer_node 1 "1") (VNode "Add" 3 [])
              (Integer_node 2 "2"))
           (BinaryOperation_matcher (SaveMatchedNode DoNotCare "L") DoNotCare
              (SaveMatchedNode DoNotCare "R"))
           None
           {[ "L" := Integer_node 1 "1"; "R" := Integer_node 2 "2" ]}).
  - vm_compute. reflexivity.
  - exists (Integer_node 1 "1"). vm_compute. reflexivity.
Defined.

(** ** The traversal of [findall] and [extractall] *)

Lemma Forall_flat_map_intro {A B} (P : B -> Prop) (f : A -> list B) l :
  Forall (fun x => Forall P (f x)) l -> Forall P (flat_map f l).
Proof.
  induction 1; simpl; [constructor|]. apply Forall_app. split; assumption.
Qed.

Lemma vsize_in (items : list value) :
  Forall (fun v => vsize v <= list_sum (map vsize items)) items.
Proof.
  induction items as [|v items IH]; constructor; simpl; [lia|].
  eapply Forall_impl; [exact IH|]. simpl. intros; lia.
Qed.

Lemma vsize_in_attrs (attrs : list (string * value)) :
  Forall (fun a => vsize (snd a) <= list_sum (map (fun a => vsize (snd a)) attrs)) attrs.
Proof.
  induction attrs as [|a attrs IH]; constructor; simpl; [lia|].
  eapply Forall_impl; [exact IH|]. simpl. intros; lia.
Qed.

(** Only nodes are visited. *)
Lemma preorder_nodes_sized n :
  forall v, vsize v <= n -> Forall (fun x => is_node x = true) (preorder v).
Proof.
  induction n as [|n IH]; intros v Hv; [destruct v; simpl in Hv; lia|].
  destruct v; simpl in *; try constructor; try reflexivity.
  - apply Forall_flat_map_intro. eapply Forall_impl; [apply vsize_in_attrs|].
    simpl. intros a Ha. apply IH. lia.
  - apply Forall_flat_map_intro. eapply Forall_impl; [apply vsize_in|].
    simpl. intros a Ha. apply IH. lia.
Qed.

Lemma preorder_nodes v : Forall (fun x => is_node x = true) (preorder v).
Proof. apply (preorder_nodes_sized (vsize v)). lia. Qed.

(** What [_FindAllVisitor.on_visit] collects over the visited nodes. *)
Lemma on_visit_all_collects m lookup nodes found extracted :
  on_visit_all m lookup nodes = Ok (found, extracted) ->
  found = List.filter (fun node => is_match (_matches node m lookup)) nodes /\
  Forall2 (fun node c => _matches node m lookup = Ok (Some c)) found extracted.
Proof.
  revert found extracted.
  induction nodes as [|node nodes IH]; simpl; intros found extracted H.
  - inversion H; subst. split; [reflexivity|constructor].
  - destruct (_matches node m lookup) as [[c|]|e|] eqn:Hm; simpl in H;
      try discriminate;
      (destruct (on_visit_all m lookup nodes) as [[found' extracted']|e|];
       simpl in H; try discriminate);
      inversion H; subst; destruct (IH _ _ eq_refl) as [IH1 IH2]; simpl.
    + split; [f_equal; exact IH1|]. constructor; assumption.
    + split; assumption.
Qed.

(** X9. [findall] and [extractall] on a tree run the same traversal: the
    found nodes are the visited nodes that match, in visiting order, there is
    one dictionary per found node, and it is the dictionary that [extract]
    gives for that node when the matcher is allowed at the top level of
    [extract]. *)
Theorem extractall_is_extract_of_findall cls oid attrs m resolver found extracted :
  findall (Tree (VNode cls oid attrs)) m resolver = Ok found ->
  extractall (Tree (VNode cls oid attrs)) m resolver = Ok extracted ->
  List.length found = List.length extracted /\
  found = List.filter
            (fun node => is_match (_matches node m (fetcher_of resolver)))
            (preorder (VNode cls oid attrs)) /\
  (forbidden_at_top_level m = false ->
   Forall2 (fun node c => extract node m resolver = Ok (Some c)) found extracted).
Proof.
  unfold findall, extractall, _find_or_extract_all.
  destruct (is_quantifier m) eqn:Hq.
  { assert (Hnone : forall nodes,
              List.filter
                (fun node => is_match (_matches node m (fetcher_of resolver))) nodes
              = []).
    { induction nodes as [|node nodes IHn]; simpl; [reflexivity|].
      pose proof (matches_quantifier_fails node m (fetcher_of resolver) Hq) as Hf.
      destruct (_matches node m (fetcher_of resolver)) as [[c|]|e|]; simpl;
        try exact IHn.
      exfalso. apply Hf. apply succeeds_Ok_Some. }
    rewrite Hnone.
    destruct m; try discriminate; simpl; intros H1 H2; inversion H1; inversion H2;
      subst; (split; [reflexivity|split; [reflexivity|intros _; constructor]]). }
  assert (Hgo : match m with
                | AtLeastN _ _ | AtMostN _ _ => Ok ([], [])
                | _ => on_visit_all m (fetcher_of resolver)
                         (preorder (VNode cls oid attrs))
                end
                = on_visit_all m (fetcher_of resolver) (preorder (VNode cls oid attrs)))
    by (destruct m; try discriminate; reflexivity).
  rewrite Hgo.
  destruct (on_visit_all m (fetcher_of resolver) (preorder (VNode cls oid attrs)))
    as [[found' extracted']|e|] eqn:Hv; simpl; try discriminate.
  intros H1 H2. inversion H1; inversion H2; subst.
  destruct (on_visit_all_collects _ _ _ _ _ Hv) as [Hf He].
  split; [eapply Forall2_length; exact He|]. split; [exact Hf|].
  intros Hforb.
  assert (Hnodes : Forall (fun x => is_node x = true) found).
  { rewrite Hf. pose proof (preorder_nodes (VNode cls oid attrs)) as Hp.
    rewrite Forall_forall in *. intros x Hx. apply list_elem_of_In in Hx.
    apply filter_In in Hx. apply Hp, list_elem_of_In, Hx. }
  clear Hf Hv Hgo H1 H2.
  induction He as [|node c found extracted Hm He IH]; [constructor|].
  inversion Hnodes; subst. constructor; [|apply IH; assumption].
  unfold extract. rewrite Hforb. destruct node; try discriminate; exact Hm.
Qed.

Lemma extractall_is_extract_of_findall_witness :
  let one := Integer_node 1 "1" in
  let two := Integer_node 2 "2" in
  let m := Integer_matcher (SaveMatchedNode DoNotCare "v") in
  Forall2 (fun node c => extract node m None = Ok (Some c)) [one; two]
    [{[ "v" := VStr "1" ]}; {[ "v" := VStr "2" ]}].
Proof.
  intros one two m.
  destruct (extractall_is_extract_of_findall "BinaryOperation" 0
              [("left", one); ("operator", VNode "Add" 3 []); ("right", two)]
              m None [one; two] [{[ "v" := VStr "1" ]}; {[ "v" := VStr "2" ]}])
    as (_ & _ & H).
  - vm_compute. reflexivity.
  - vm_compute. reflexivity.
  - apply H. reflexivity.
Defined.

Lemma matches_MatchIfTrue node func lookup :
  is_node node = true -> _matches node (MatchIfTrue func) lookup = empty_if (func node).
Proof.
  intros Hn. rewrite matches_eq. destruct node; try discriminate.
  rewrite node_matches_eq. reflexivity.
Qed.

Lemma on_visit_all_MatchIfTrue func lookup nodes :
  Forall (fun x => is_node x = true) nodes ->
  on_visit_all (MatchIfTrue func) lookup nodes
  = Ok (List.filter func nodes, List.map (fun _ => ∅) (List.filter func nodes)).
Proof.
  induction 1 as [|node nodes Hn _ IH]; simpl; [reflexivity|].
  rewrite (matches_MatchIfTrue _ _ _ Hn), IH. simpl.
  destruct (func node); reflexivity.
Qed.

(** X10. [findall] with a [MatchIfTrue] at the root filters the visited nodes
    with the predicate, and [extractall] gives one empty dictionary for each
    of them. *)
Theorem findall_predicate_filters cls oid attrs func resolver :
  let nodes := preorder (VNode cls oid attrs) in
  findall (Tree (VNode cls oid attrs)) (MatchIfTrue func) resolver
  = Ok (List.filter func nodes) /\
  extractall (Tree (VNode cls oid attrs)) (MatchIfTrue func) resolver
  = Ok (List.map (fun _ => ∅) (List.filter func nodes)).
Proof.
  unfold findall, extractall, _find_or_extract_all.
  rewrite on_visit_all_MatchIfTrue by apply preorder_nodes.
  split; reflexivity.
Qed.

(** ** Concrete matchers, field by field *)

Lemma node_fields_loop_succeeds lookup node attrs flds :
  forall acc,
    succeeds (node_fields_loop
                (fun desired => _metadata_matches node desired lookup)
                (fun actual desired => _attribute_matches actual desired lookup)
                attrs flds acc)
    <-> Forall (field_matches lookup node attrs) flds.
Proof.
  induction flds as [|[name desired] flds IH]; intros acc; simpl.
  - split; [constructor|]. intros _. apply succeeds_Ok_Some.
  - rewrite Forall_cons. unfold field_matches at 1.
    destruct (String.eqb name "_metadata"); [rewrite IH; tauto|].
    destruct (String.eqb name "metadata").
    + assert (Hgo : succeeds
                (_metadata_matches node desired lookup ≫= fun metadata_capture =>
                   match metadata_capture with
                   | None => Ok None
                   | Some c =>
                       node_fields_loop
                         (fun desired => _metadata_matches node desired lookup)
                         (fun actual desired =>
                            _attribute_matches actual desired lookup)
                         attrs flds (dict_merge acc c)
                   end)
              <-> succeeds (_metadata_matches node desired lookup)
                  /\ Forall (field_matches lookup node attrs) flds).
      { destruct (_metadata_matches node desired lookup) as [[c|]|e|]; simpl.
        - rewrite IH. split; [intros H; split; [apply succeeds_Ok_Some|exact H]|tauto].
        - split; [intros H; exfalso; revert H; apply succeeds_Ok_None|].
          intros [H _]. exfalso; revert H; apply succeeds_Ok_None.
        - split; [intros H; exfalso; revert H; apply succeeds_Raise|].
          intros [H _]. exfalso; revert H; apply succeeds_Raise.
        - split; [intros H; exfalso; revert H; apply succeeds_Timeout|].
          intros [H _]. exfalso; revert H; apply succeeds_Timeout. }
      destruct desired; try (rewrite Hgo; split;
          [intros [H1 H2]; split; [right; exact H1|exact H2]
          |intros [[H1|H1] H2]; [discriminate|split; assumption]]).
      rewrite IH. split; [intros H; split; [left; reflexivity|exact H]|tauto].
    + destruct (getattr attrs name) as [actual|e|]; simpl.
      * destruct (_attribute_matches actual desired lookup) as [[c|]|e|] eqn:Ha; simpl.
        -- rewrite IH. split.
           ++ intros H. split; [|exact H]. exists actual. split; [reflexivity|].
              rewrite Ha. apply succeeds_Ok_Some.
           ++ tauto.
        -- split; [intros H; exfalso; revert H; apply succeeds_Ok_None|].
           intros [(a & Hg & H) _]. inversion Hg; subst. rewrite Ha in H.
           exfalso; revert H; apply succeeds_Ok_None.
        -- split; [intros H; exfalso; revert H; apply succeeds_Raise|].
           intros [(a & Hg & H) _]. inversion Hg; subst. rewrite Ha in H.
           exfalso; revert H; apply succeeds_Raise.
        -- split; [intros H; exfalso; revert H; apply succeeds_Timeout|].
           intros [(a & Hg & H) _]. inversion Hg; subst. rewrite Ha in H.
           exfalso; revert H; apply succeeds_Timeout.
      * split; [intros H; exfalso; revert H; apply succeeds_Raise|].
        intros [(a & Hg & _) _]. discriminate.
      * split; [intros H; exfalso; revert H; apply succeeds_Timeout|].
        intros [(a & Hg & _) _]. discriminate.
Qed.

(** X11. a concrete matcher matches a node exactly when the class names are
    the same and every field of the matcher matches the field of the node of
    the same name; the [metadata] field is matched against the metadata of the
    node itself, and a field left at [DoNotCare()] only asks that the node has
    the attribute. *)
Theorem concrete_matcher_matches_fieldwise cls' oid attrs cls flds resolver :
  let node := VNode cls' oid attrs in
  succeeds (extract node (Concrete cls flds) resolver)
  <-> cls' = cls /\ Forall (field_matches (fetcher_of resolver) node attrs) flds.
Proof.
  cbv zeta. unfold extract. simpl forbidden_at_top_level. cbv iota.
  rewrite matches_eq, node_matches_eq. simpl class_name. simpl matcher_class_name.
  destruct (String.eqb cls' cls) eqn:Hc; simpl negb; cbv iota.
  - apply String.eqb_eq in Hc. rewrite node_fields_loop_succeeds. tauto.
  - apply String.eqb_neq in Hc. split.
    + intros H. exfalso. revert H. apply succeeds_Ok_None.
    + intros [H _]. contradiction.
Qed.

(** ** Metadata matchers *)

Lemma metadata_leaf_succeeds lookup node m :
  is_metadata_leaf m = true ->
  succeeds (_metadata_matches node m lookup) <-> metadata_holds lookup node m.
Proof.
  destruct m; try discriminate; intros _; simpl.
  - destruct (lookup key node) as [actual|].
    + unfold empty_if. case_bool_decide as Heq; split.
      * intros _. congruence.
      * intros _. apply succeeds_Ok_Some.
      * intros Hs. exfalso. revert Hs. apply succeeds_Ok_None.
      * intros Hs. congruence.
    + split; [intros H; exfalso; revert H; apply succeeds_Ok_None|discriminate].
  - destruct (lookup key node) as [actual|].
    + unfold empty_if. destruct (func actual) eqn:Hf; split.
      * intros _. eauto.
      * intros _. apply succeeds_Ok_Some.
      * intros H. exfalso. revert H. apply succeeds_Ok_None.
      * intros (a & Ha & Hfa). congruence.
    + split; [intros H; exfalso; revert H; apply succeeds_Ok_None|].
      intros (a & Ha & _). discriminate.
Qed.

Lemma metadata_field_matches lookup node attrs m :
  is_metadata_leaf m = true ->
  field_matches lookup node attrs ("metadata", m) <-> metadata_holds lookup node m.
Proof.
  intros Hm. unfold field_matches. simpl.
  rewrite (metadata_leaf_succeeds _ _ _ Hm).
  destruct m; try discriminate; split; auto; intros [H|H]; auto; discriminate.
Qed.

(** X12. a concrete matcher with a [MatchMetadata] or [MatchMetadataIfTrue]
    in its [metadata] field only matches nodes whose metadata is present and
    is the value, or satisfies the predicate; without a metadata resolver it
    matches no node. *)
Theorem metadata_field_constrains_node cls' oid attrs cls flds m resolver :
  is_metadata_leaf m = true ->
  In ("metadata", m) flds ->
  let node := VNode cls' oid attrs in
  (succeeds (extract node (Concrete cls flds) resolver) ->
   metadata_holds (fetcher_of resolver) node m) /\
  ~ succeeds (extract node (Concrete cls flds) None).
Proof.
  intros Hm Hin node.
  assert (Hgo : forall resolver,
            succeeds (extract node (Concrete cls flds) resolver) ->
            metadata_holds (fetcher_of resolver) node m).
  { intros r H. unfold extract in H. simpl forbidden_at_top_level in H.
    cbv iota in H. unfold node in H.
    rewrite matches_eq, node_matches_eq in H.
    destruct (negb _); [exfalso; revert H; apply succeeds_Ok_None|].
    apply node_fields_loop_succeeds in H.
    rewrite List.Forall_forall in H. specialize (H _ Hin).
    apply (metadata_field_matches _ _ attrs _ Hm). exact H. }
  split; [apply Hgo|].
  intros H. apply Hgo in H. simpl in H.
  destruct m; try discriminate.
  destruct H as (a & Ha & _). discriminate.
Qed.

Lemma metadata_field_constrains_node_witness :
  ~ succeeds (extract (Name_node 1 "a")
                (Concrete "Name"
                   [("value", DoNotCare);
                    ("metadata", MatchMetadata "ExpressionContextProvider" (MetaEnum "ExpressionContext" "STORE"))])
                None).
Proof.
  apply (metadata_field_constrains_node "Name" 1 [("value", VStr "a")] "Name"
           [("value", DoNotCare);
            ("metadata", MatchMetadata "ExpressionContextProvider" (MetaEnum "ExpressionContext" "STORE"))]
           (MatchMetadata "ExpressionContextProvider" (MetaEnum "ExpressionContext" "STORE")) None).
  - reflexivity.
  - right. left. reflexivity.
Defined.

(** X13. the inverse of a metadata matcher on a node.  With the metadata
    present, both inverses match exactly when the matcher does not.  With the
    metadata missing, the inverse of [MatchMetadata] matches, and the inverse
    of [MatchMetadataIfTrue], a [MatchMetadataIfTrue] again, does not. *)
Theorem inverse_of_metadata_matcher node key v func lookup :
  (m ← DoesNotMatch (MatchMetadata key v); _metadata_matches node m lookup)
  = match lookup key node with
    | Some actual => empty_if (negb (bool_decide (actual = v)))
    | None => Ok (Some ∅)
    end
  /\
  (m ← DoesNotMatch (MatchMetadataIfTrue key func); _metadata_matches node m lookup)
  = match lookup key node with
    | Some actual => empty_if (negb (func actual))
    | None => Ok None
    end.
Proof.
  split; simpl.
  - destruct (lookup key node) as [actual|]; [|reflexivity].
    destruct (bool_decide (actual = v)); reflexivity.
  - destruct (lookup key node) as [actual|]; reflexivity.
Qed.

(** ** Constructors and operators of the combinators *)

Lemma OneOf_options_closed options :
  OneOf_options options
  = if existsb is_AllOf options then Raise combination_error
    else Ok (flat_map OneOf_flat options).
Proof.
  induction options as [|m options IH]; [reflexivity|].
  destruct m; simpl; try reflexivity; rewrite IH;
    destruct (existsb is_AllOf options); reflexivity.
Qed.

Lemma AllOf_options_closed options :
  AllOf_options options
  = if existsb is_OneOf options then Raise combination_error
    else Ok (flat_map AllOf_flat options).
Proof.
  induction options as [|m options IH]; [reflexivity|].
  destruct m; simpl; try reflexivity; rewrite IH;
    destruct (existsb is_OneOf options); reflexivity.
Qed.

(** X14. [OneOf(...)] raises exactly when one of its arguments is an [AllOf],
    wherever it stands, and otherwise keeps the arguments in order with the
    options of the [OneOf] arguments spliced in; [AllOf(...)] likewise. *)
Theorem combinator_init_flattens_or_raises options :
  OneOf_init options
  = (if existsb is_AllOf options then Raise combination_error
     else Ok (OneOf (flat_map OneOf_flat options)))
  /\
  AllOf_init options
  = (if existsb is_OneOf options then Raise combination_error
     else Ok (AllOf (flat_map AllOf_flat options))).
Proof.
  unfold OneOf_init, AllOf_init.
  rewrite OneOf_options_closed, AllOf_options_closed.
  destruct (existsb is_AllOf options); destruct (existsb is_OneOf options);
    split; reflexivity.
Qed.

(** X15. on matcher objects that are no combinators, [|] and [&] are
    associative and build the flat combinator. *)
Theorem operators_flatten a b c :
  is_simple a = true -> is_simple b = true -> is_simple c = true ->
  (ab ← matcher_or a b; matcher_or ab c) = Ok (OneOf [a; b; c]) /\
  (bc ← matcher_or b c; matcher_or a bc) = Ok (OneOf [a; b; c]) /\
  (ab ← matcher_and a b; matcher_and ab c) = Ok (AllOf [a; b; c]) /\
  (bc ← matcher_and b c; matcher_and a bc) = Ok (AllOf [a; b; c]).
Proof.
  intros Ha Hb Hc.
  destruct a; try discriminate; destruct b; try discriminate;
    destruct c; try discriminate; repeat split; reflexivity.
Qed.

Lemma operators_flatten_witness :
  let a := Name_matcher (MStr "a") in
  let b := InverseOf (Name_matcher (MStr "b")) in
  let c := MatchIfTrue (fun _ => true) in
  (ab ← matcher_or a b; matcher_or ab c) = Ok (OneOf [a; b; c]) /\
  (bc ← matcher_and b c; matcher_and a bc) = Ok (AllOf [a; b; c]).
Proof.
  intros a b c.
  destruct (operators_flatten a b c eq_refl eq_refl eq_refl) as (H1 & _ & _ & H4).
  split; [exact H1|exact H4].
Defined.

(** X16. the two combinators never mix: [&] on a [OneOf] and [|] on an
    [AllOf] raise, and so does a constructor that receives the other
    combinator at any position. *)
Theorem combinators_never_mix options other before after :
  matcher_and (OneOf options) other = Raise combination_error /\
  matcher_or (AllOf options) other = Raise combination_error /\
  OneOf_init (before ++ AllOf options :: after) = Raise combination_error /\
  AllOf_init (before ++ OneOf options :: after) = Raise combination_error.
Proof.
  split; [reflexivity|]. split; [reflexivity|].
  unfold OneOf_init, AllOf_init.
  rewrite OneOf_options_closed, AllOf_options_closed.
  rewrite !existsb_app. simpl. rewrite !orb_true_r. split; reflexivity.
Qed.

(** X17. the quantifiers are refused by their own operators only: [q | m]
    and [q & m] raise, while [m | q], [m & q] and the constructors accept
    the quantifier as an option. *)
Theorem quantifier_refused_on_the_left_only q m :
  is_quantifier q = true -> is_simple m = true ->
  (exists e, matcher_or q m = Raise e) /\
  (exists e, matcher_and q m = Raise e) /\
  matcher_or m q = Ok (OneOf (OneOf_flat m ++ [q])) /\
  matcher_and m q = Ok (AllOf (AllOf_flat m ++ [q])) /\
  OneOf_init [q] = Ok (OneOf [q]) /\
  AllOf_init [q] = Ok (AllOf [q]).
Proof.
  intros Hq Hm.
  destruct q; try discriminate; destruct m; try discriminate;
    repeat split; try reflexivity; eexists; reflexivity.
Qed.

Lemma quantifier_refused_on_the_left_only_witness :
  let q := AtLeastN DoNotCare 1 in
  let m := Name_matcher DoNotCare in
  (exists e, matcher_or q m = Raise e) /\ matcher_or m q = Ok (OneOf [m; q]).
Proof.
  intros q m.
  destruct (quantifier_refused_on_the_left_only q m eq_refl eq_refl)
    as (H1 & _ & H3 & _).
  split; [exact H1|exact H3].
Defined.

(** ** The negation of an [AllOf] *)

(** [OneOf.__init__] flattens each option on its own. *)
Lemma OneOf_options_cons m options :
  OneOf_options (m :: options)
  = la ← OneOf_options [m]; lb ← OneOf_options options; Ok (la ++ lb)%list.
Proof.
  destruct m; simpl; try reflexivity;
    destruct (OneOf_options options); simpl; rewrite ?app_nil_r; reflexivity.
Qed.

Lemma OneOf_options_app l1 l2 :
  OneOf_options (l1 ++ l2)
  = la ← OneOf_options l1; lb ← OneOf_options l2; Ok (la ++ lb)%list.
Proof.
  induction l1 as [|m l1 IH]; simpl app.
  - simpl. destruct (OneOf_options l2); reflexivity.
  - rewrite (OneOf_options_cons m (l1 ++ l2)), (OneOf_options_cons m l1), IH.
    destruct (OneOf_options [m]) as [la| |]; try reflexivity.
    destruct (OneOf_options l1) as [la1| |]; try reflexivity.
    destruct (OneOf_options l2) as [la2| |]; try reflexivity.
    simpl. rewrite app_assoc. reflexivity.
Qed.

Lemma AllOf_init_pair A B :
  AllOf_init [A; B]
  = if is_OneOf A || is_OneOf B then Raise combination_error
    else Ok (AllOf (AllOf_flat A ++ AllOf_flat B)).
Proof.
  unfold AllOf_init.
  destruct A; destruct B; simpl; rewrite ?app_nil_r; reflexivity.
Qed.

Lemma inverse_choices_flat m :
  is_OneOf m = false ->
  inverse_choices m = inv ← comprehension DoesNotMatch (AllOf_flat m); OneOf_options inv.
Proof.
  unfold inverse_choices. intros Hm.
  destruct m; try discriminate; try reflexivity.
  (* AllOf *)
  simpl. destruct (comprehension DoesNotMatch options) as [inv| |]; try reflexivity.
    simpl. unfold OneOf_init. destruct (OneOf_options inv) as [la| |]; try reflexivity.
    simpl. rewrite app_nil_r. reflexivity.
Qed.

Lemma inverse_choices_OneOf m :
  is_OneOf m = true -> exists e, inverse_choices m = Raise e.
Proof.
  unfold inverse_choices. destruct m; try discriminate. intros _.
  pose proof (DoesNotMatch_returns (OneOf options)) as Hr.
  simpl in *. destruct (comprehension DoesNotMatch options) as [inv|e|].
  - simpl in *. unfold AllOf_init in *.
    destruct (AllOf_options inv) as [l|e|]; simpl in *; eauto.
    exfalso; apply Hr; reflexivity.
  - eauto.
  - exfalso; apply Hr; reflexivity.
Qed.

Lemma inverse_choices_returns m : returns (inverse_choices m).
Proof.
  unfold inverse_choices. apply returns_bind; [apply DoesNotMatch_returns|].
  intros x. apply OneOf_options_returns.
Qed.

Lemma OneOf_of_negations_norm A B :
  same_outcome (OneOf_of_negations A B) (inverse_choices_pair A B).
Proof.
  unfold OneOf_of_negations, inverse_choices_pair, inverse_choices, OneOf_init.
  pose proof (DoesNotMatch_returns A) as HA.
  pose proof (DoesNotMatch_returns B) as HB.
  destruct (DoesNotMatch A) as [a|ea|]; [|exact I|exfalso; apply HA; reflexivity].
  destruct (DoesNotMatch B) as [b|eb|]; [| |exfalso; apply HB; reflexivity].
  - cbn -[OneOf_options]. rewrite (OneOf_options_cons a [b]).
    destruct (OneOf_options [a]) as [la| |]; cbn -[OneOf_options]; auto.
    destruct (OneOf_options [b]) as [lb| |]; cbn -[OneOf_options]; auto.
  - cbn -[OneOf_options]. pose proof (OneOf_options_returns [a]) as Ha.
    destruct (OneOf_options [a]) as [la| |]; cbn -[OneOf_options]; auto.
Qed.

Lemma negated_AllOf_norm A B :
  same_outcome (negated_AllOf A B) (inverse_choices_pair A B).
Proof.
  unfold negated_AllOf, inverse_choices_pair. rewrite AllOf_init_pair.
  pose proof (inverse_choices_returns A) as HA.
  pose proof (inverse_choices_returns B) as HB.
  destruct (is_OneOf A) eqn:EA.
  { destruct (inverse_choices_OneOf A EA) as [e He]. rewrite He. exact I. }
  destruct (is_OneOf B) eqn:EB.
  { destruct (inverse_choices_OneOf B EB) as [e He]. rewrite He in *.
    destruct (inverse_choices A); simpl; auto. }
  rewrite (inverse_choices_flat A EA) in *. rewrite (inverse_choices_flat B EB) in *.
  simpl. rewrite comprehension_app.
  destruct (comprehension DoesNotMatch (AllOf_flat A)) as [ia|ea|]; simpl in *;
    [|exact I|exfalso; apply HA; reflexivity].
  destruct (comprehension DoesNotMatch (AllOf_flat B)) as [ib|eb|]; simpl in *;
    [| |exfalso; apply HB; reflexivity].
  - unfold OneOf_init. rewrite OneOf_options_app.
    destruct (OneOf_options ia) as [la| |]; simpl; auto.
    destruct (OneOf_options ib) as [lb| |]; simpl; auto.
  - destruct (OneOf_options ia) as [la| |]; simpl; auto.
Qed.

(** X18. De Morgan for [AllOf]: [DoesNotMatch(AllOf(A, B))] and
    [OneOf(DoesNotMatch(A), DoesNotMatch(B))] are the same matcher, or both
    constructions raise. *)
Theorem de_morgan_negated_AllOf (A B : matcher) :
  same_outcome (negated_AllOf A B) (OneOf_of_negations A B) /\
  (forall node resolver,
     same_outcome (m ← negated_AllOf A B; matches node m resolver)
                  (m ← OneOf_of_negations A B; matches node m resolver)).
Proof.
  assert (H : same_outcome (negated_AllOf A B) (OneOf_of_negations A B)).
  { eapply same_outcome_trans_via;
      [apply negated_AllOf_norm|apply OneOf_of_negations_norm]. }
  split; [exact H|]. intros node resolver. apply same_outcome_bind. exact H.
Qed.

(** ** Double negation *)

Lemma comprehension_wrapped options :
  Forall (fun m => is_wrapped_by_inverse m = true) options ->
  comprehension DoesNotMatch options = Ok (map InverseOf options).
Proof.
  induction 1 as [|m options Hm _ IH]; simpl; [reflexivity|].
  rewrite IH. destruct m; try discriminate; reflexivity.
Qed.

Lemma comprehension_unwrap options :
  comprehension DoesNotMatch (map InverseOf options) = Ok options.
Proof.
  induction options as [|m options IH]; simpl; [reflexivity|].
  rewrite IH. reflexivity.
Qed.

Lemma flat_inverses options :
  existsb is_OneOf (map InverseOf options) = false /\
  existsb is_AllOf (map InverseOf options) = false /\
  flat_map OneOf_flat (map InverseOf options) = map InverseOf options /\
  flat_map AllOf_flat (map InverseOf options) = map InverseOf options.
Proof.
  induction options as [|m options (H1 & H2 & H3 & H4)]; simpl; [auto|].
  rewrite H1, H2, H3, H4. auto.
Qed.

Lemma flat_wrapped options :
  Forall (fun m => is_wrapped_by_inverse m = true) options ->
  existsb is_OneOf options = false /\
  existsb is_AllOf options = false /\
  flat_map OneOf_flat options = options /\
  flat_map AllOf_flat options = options.
Proof.
  induction 1 as [|m options Hm _ (H1 & H2 & H3 & H4)]; simpl; [auto|].
  rewrite H1, H2, H3, H4. destruct m; try discriminate; auto.
Qed.

(** X19. [DoesNotMatch] applied twice gives the matcher back: for a concrete
    matcher, a [MatchMetadata], a plain value or a quantifier, for a [OneOf]
    or an [AllOf] of such matchers, and, up to the double negation of the
    predicate, for a [MatchIfTrue] or a [MatchMetadataIfTrue]. *)
Theorem DoesNotMatch_twice_is_identity :
  (forall m, is_wrapped_by_inverse m = true -> DoesNotMatch_twice m = Ok m) /\
  (forall options,
     Forall (fun m => is_wrapped_by_inverse m = true) options ->
     DoesNotMatch (OneOf options) = Ok (AllOf (map InverseOf options)) /\
     DoesNotMatch_twice (OneOf options) = Ok (OneOf options) /\
     DoesNotMatch (AllOf options) = Ok (OneOf (map InverseOf options)) /\
     DoesNotMatch_twice (AllOf options) = Ok (AllOf options)) /\
  (forall func,
     exists func', DoesNotMatch_twice (MatchIfTrue func) = Ok (MatchIfTrue func')
                   /\ forall v, func' v = func v) /\
  (forall key func,
     exists func', DoesNotMatch_twice (MatchMetadataIfTrue key func)
                   = Ok (MatchMetadataIfTrue key func')
                   /\ forall v, func' v = func v).
Proof.
  split; [|split; [|split]].
  - intros m Hm. destruct m; try discriminate; reflexivity.
  - intros options Hopt.
    destruct (flat_inverses options) as (F1 & F2 & F3 & F4).
    destruct (flat_wrapped options Hopt) as (W1 & W2 & W3 & W4).
    assert (H1 : DoesNotMatch (OneOf options) = Ok (AllOf (map InverseOf options))).
    { simpl. rewrite (comprehension_wrapped _ Hopt). simpl.
      unfold AllOf_init. rewrite AllOf_options_closed, F1, F4. reflexivity. }
    assert (H2 : DoesNotMatch (AllOf options) = Ok (OneOf (map InverseOf options))).
    { simpl. rewrite (comprehension_wrapped _ Hopt). simpl.
      unfold OneOf_init. rewrite OneOf_options_closed, F2, F3. reflexivity. }
    split; [exact H1|]. split; [|split; [exact H2|]].
    + unfold DoesNotMatch_twice. rewrite H1. simpl.
      rewrite comprehension_unwrap. simpl.
      unfold OneOf_init. rewrite OneOf_options_closed, W2, W3. reflexivity.
    + unfold DoesNotMatch_twice. rewrite H2. simpl.
      rewrite comprehension_unwrap. simpl.
      unfold AllOf_init. rewrite AllOf_options_closed, W1, W4. reflexivity.
  - intros func. eexists. split; [reflexivity|]. intros v. simpl.
    apply negb_involutive.
  - intros key func. eexists. split; [reflexivity|]. intros v. simpl.
    apply negb_involutive.
Qed.

(** * Properties of the type inference provider *)

Import TypeInferenceProvider.

Lemma init_lookup_snoc cache item :
  init_lookup (cache ++ [item])
  = <[ item_key item := annotation item ]> (init_lookup cache).
Proof. unfold init_lookup. rewrite foldl_app. reflexivity. Qed.

(** X20. [__init__] keeps, for each location of the cache, the annotation of
    the last item with that location, and nothing for the other locations. *)
Theorem init_lookup_last_wins cache (k : key) :
  init_lookup cache !! k
  = annotation <$> last (filter (fun item => item_key item = k) cache).
Proof.
  induction cache as [|item cache IH] using rev_ind; [reflexivity|].
  rewrite init_lookup_snoc, filter_app, filter_cons, filter_nil.
  destruct (decide (item_key item = k)) as [Hk|Hk].
  - rewrite Hk, lookup_insert_eq, last_snoc. reflexivity.
  - rewrite lookup_insert_ne by exact Hk. rewrite app_nil_r. exact IH.
Qed.

Section Visits.

Context {Node : Type}.
Variable position : Node -> CodeRange.

Lemma visit_nodes_invariant (nodes : list Node) :
  forall lookup,
    let (final, calls) := visit_nodes position lookup nodes in
    Forall (fun call => lookup !! node_key position (fst call) = Some (snd call)) calls
    /\ NoDup (map (fun call => node_key position (fst call)) calls)
    /\ (forall k, final !! k
                  = if decide (k ∈ map (fun call => node_key position (fst call)) calls)
                    then None else lookup !! k)
    /\ sublist (map fst calls) nodes.
Proof.
  induction nodes as [|node nodes IH]; intros lookup; simpl.
  - split; [apply Forall_nil_2|]. split; [apply NoDup_nil_2|]. split; [|apply sublist_nil].
    intros k. reflexivity.
  - unfold _parse_metadata.
    destruct (lookup !! node_key position node) as [a|] eqn:Hk.
    + specialize (IH (delete (node_key position node) lookup)).
      destruct (visit_nodes position (delete (node_key position node) lookup) nodes)
        as [final calls].
      destruct IH as (H1 & H2 & H3 & H4).
      assert (Hnot : node_key position node
                     ∉ map (fun call => node_key position (fst call)) calls).
      { intros Hin. apply list_elem_of_fmap in Hin. destruct Hin as (call & Hc & Hin).
        rewrite Forall_forall in H1. specialize (H1 _ Hin). rewrite <- Hc in H1.
        rewrite lookup_delete_eq in H1. discriminate. }
      repeat split.
      * constructor; [exact Hk|]. eapply Forall_impl; [exact H1|]. simpl.
        intros call Hc.
        destruct (decide (node_key position node = node_key position (fst call)))
          as [He|He].
        -- rewrite He, lookup_delete_eq in Hc. discriminate.
        -- rewrite lookup_delete_ne in Hc by exact He. exact Hc.
      * simpl. constructor; assumption.
      * intros k. rewrite H3. simpl.
        destruct (decide (k ∈ map (fun call => node_key position (fst call)) calls))
          as [Hin|Hin].
        -- rewrite decide_True by (right; exact Hin). reflexivity.
        -- destruct (decide (k = node_key position node)) as [->|Hne].
           ++ rewrite decide_True by left. apply lookup_delete_eq.
           ++ rewrite decide_False.
              ** apply lookup_delete_ne. congruence.
              ** intros Hc. inversion Hc; subst; contradiction.
      * simpl. constructor. exact H4.
    + specialize (IH lookup).
      destruct (visit_nodes position lookup nodes) as [final calls].
      destruct IH as (H1 & H2 & H3 & H4).
      repeat split; try assumption. constructor. exact H4.
Qed.

(** X21. over the visits of a tree, [set_metadata] is called at most once
    for each location: the annotation of a call is the entry of [self.lookup]
    for the position of the node, no two calls are for nodes of the same
    position, the calls follow the visiting order, and [self.lookup] is left
    with exactly the entries that no call took. *)
Theorem each_annotation_is_set_once (lookup : gmap key string) (nodes : list Node) :
  let final := fst (visit_nodes position lookup nodes) in
  let calls := snd (visit_nodes position lookup nodes) in
  let taken := map (fun call => node_key position (fst call)) calls in
  Forall (fun call => lookup !! node_key position (fst call) = Some (snd call)) calls
  /\ NoDup taken
  /\ (forall k, final !! k = if decide (k ∈ taken) then None else lookup !! k)
  /\ sublist (map fst calls) nodes.
Proof.
  pose proof (visit_nodes_invariant nodes lookup) as H.
  destruct (visit_nodes position lookup nodes) as [final calls]. exact H.
Qed.

(** X22. the annotation of a location goes to the first visited node at
    that location. *)
Theorem first_node_of_a_location_is_annotated (lookup : gmap key string)
    (nodes : list Node) (k : key) (annotation : string) :
  lookup !! k = Some annotation ->
  Exists (fun node => node_key position node = k) nodes ->
  exists pre node post,
    nodes = (pre ++ node :: post)%list
    /\ Forall (fun x => node_key position x <> k) pre
    /\ node_key position node = k
    /\ In (node, annotation) (snd (visit_nodes position lookup nodes)).
Proof.
  revert lookup. induction nodes as [|n nodes IH]; intros lookup Hk Hex;
    [inversion Hex|].
  destruct (decide (node_key position n = k)) as [He|He].
  - exists [], n, nodes. split; [reflexivity|]. split; [constructor|].
    split; [exact He|]. simpl. unfold _parse_metadata. rewrite He, Hk.
    destruct (visit_nodes position (delete k lookup) nodes) as [final calls].
    left. reflexivity.
  - assert (Hex' : Exists (fun node => node_key position node = k) nodes)
      by (inversion Hex; subst; [contradiction|assumption]).
    assert (Hstep : exists lookup',
              fst (_parse_metadata position lookup n) = lookup'
              /\ lookup' !! k = Some annotation).
    { unfold _parse_metadata. destruct (lookup !! node_key position n); simpl.
      - eexists. split; [reflexivity|]. rewrite lookup_delete_ne by exact He. exact Hk.
      - eexists. split; [reflexivity|exact Hk]. }
    destruct Hstep as (lookup' & Hl & Hk').
    destruct (IH lookup' Hk' Hex') as (pre & node & post & Hn & Hpre & Hnode & Hin).
    exists (n :: pre), node, post. split; [rewrite Hn; reflexivity|].
    split; [constructor; assumption|]. split; [exact Hnode|].
    simpl. destruct (_parse_metadata position lookup n) as [l set]. simpl in Hl.
    subst l. destruct (visit_nodes position lookup' nodes) as [final calls].
    simpl in *. destruct set; [right|]; exact Hin.
Qed.

End Visits.

Lemma first_node_of_a_location_is_annotated_witness :
  let position := fun n : nat =>
    {| range_start := {| line := 1; column := 0 |};
       range_end := {| line := 1; column := Z.of_nat (n mod 2) |} |} in
  let cache :=
    [ {| location := {| path := "a.py";
                        start := {| line := 1; column := 0 |};
                        stop := {| line := 1; column := 1 |} |};
         annotation := "int" |} ] in
  exists pre node post,
    [2; 1; 3] = (pre ++ node :: post)%list
    /\ Forall (fun x => node_key position x <> (1, 0, 1, 1)%Z) pre
    /\ node_key position node = (1, 0, 1, 1)%Z
    /\ In (node, "int") (snd (visit_nodes position (init_lookup cache) [2; 1; 3])).
Proof.
  intros position cache.
  apply (first_node_of_a_location_is_annotated position (init_lookup cache)
           [2; 1; 3] (1, 0, 1, 1)%Z "int").
  - vm_compute. reflexivity.
  - right. left. reflexivity.
Defined.
